(** * context-menu-manager: a shallow embedding of main.go

    The program reads a manifest of context-menu entries and writes them
    below [HKCU\Software\Classes\Directory\Background\shell].  This file
    models, from [main.go]:
    - the string helpers the code uses ([strings.ReplaceAll],
      [strings.ContainsAny], [strings.Join], [fmt.Sprintf("%s,%d")],
      [quoteWindowsPath]);
    - the registry as a finite map from key paths (lists of path segments,
      the registry's own splitting of a path string at backslashes) to the
      value map of each key, with the calls of
      [golang.org/x/sys/windows/registry] the code makes; each call is
      recorded in a log together with its outcome, and an environment
      may reject any call with a Windows error code (permission denied,
      ...);
    - [findNircmd] with its process-wide cache, [ContextMenu.Icon],
      [ContextMenu.CommandString] (whose [log.Fatal] terminates the
      process), [deleteRegKeyRecursive], [createContextMenu] and the
      installation loop of [run];
    - [findManifest], the steps of [run] that read and decode the
      manifest, and [main], with the file system and the JSON decoder as
      parameters.

    Go maps ([map[string]*ContextMenu]) are modelled as association lists
    in the order one [range] visits them; map values are non-nil
    pointers. *)

From Stdlib Require Import String Ascii List ZArith NArith Lia.
From stdpp Require Import base gmap strings list fin_maps.

Import ListNotations.
Open Scope list_scope.

(** stdpp declares [String.append] [simpl never]; the proofs below
    compute with it. *)
Arguments String.append : simpl nomatch.

(* ------------------------------------------------------------------ *)
(** ** Strings *)

Definition bs : ascii := "\"%char.
Definition dq : ascii := Ascii.ascii_of_nat 34.

(** [quoteWindowsPath] *)
Definition quoteWindowsPath (path : string) : string :=
  String dq (path ++ String dq EmptyString)%string.

(** [strings.HasPrefix] returning the rest *)
Fixpoint strip_prefix_s (p s : string) : option string :=
  match p, s with
  | EmptyString, _ => Some s
  | String c p', String d s' => if Ascii.eqb c d then strip_prefix_s p' s' else None
  | String _ _, EmptyString => None
  end.

(** [strings.ReplaceAll] for a non-empty [old]: a left-to-right scan
    replacing non-overlapping occurrences; replaced text is not rescanned. *)
Fixpoint replace_go (fuel : nat) (s old new : string) : string :=
  match fuel with
  | O => s
  | S f =>
      match s with
      | EmptyString => EmptyString
      | String c s' =>
          match strip_prefix_s old s with
          | Some rest => (new ++ replace_go f rest old new)%string
          | None => String c (replace_go f s' old new)
          end
      end
  end.

(** [strings.ReplaceAll] with an empty [old] inserts [new] before every
    character and at the end. *)
Fixpoint replace_empty (s new : string) : string :=
  match s with
  | EmptyString => new
  | String c s' => (new ++ String c (replace_empty s' new))%string
  end.

Definition ReplaceAll (s old new : string) : string :=
  match old with
  | EmptyString => replace_empty s new
  | _ => replace_go (String.length s) s old new
  end.

(** [strings.ContainsAny] (ASCII characters) *)
Definition ContainsAny (s chars : string) : bool :=
  existsb (fun c => existsb (Ascii.eqb c) (list_ascii_of_string chars))
          (list_ascii_of_string s).

(** [strings.Join] *)
Fixpoint Join (elems : list string) (sep : string) : string :=
  match elems with
  | [] => EmptyString
  | [x] => x
  | x :: rest => (x ++ sep ++ Join rest sep)%string
  end.

(** [%d] of [fmt]: decimal digits with a leading minus sign *)
Definition digit (n : N) : ascii := Ascii.ascii_of_N (48 + n).

Fixpoint digits_go (fuel : nat) (n : N) (acc : string) : string :=
  match fuel with
  | O => acc
  | S f =>
      let acc' := String (digit (N.modulo n 10)) acc in
      if (n <? 10)%N then acc' else digits_go f (N.div n 10) acc'
  end.

Definition fmt_d (z : Z) : string :=
  let digits := digits_go (S (Pos.to_nat (Pos.size (Z.to_pos (Z.abs z + 1)))))
                          (Z.to_N (Z.abs z)) EmptyString in
  if (z <? 0)%Z then String "-" digits else digits.

(** Splitting of a registry path at its backslashes. *)
Fixpoint split_path (s : string) : list string :=
  match s with
  | EmptyString => [EmptyString]
  | String c s' =>
      let rest := split_path s' in
      if Ascii.eqb c bs then EmptyString :: rest
      else match rest with
           | h :: t => String c h :: t
           | [] => [String c EmptyString]
           end
  end.

(* ------------------------------------------------------------------ *)
(** ** Errors and outcomes *)

(** Go [error] values the program builds: registry errors
    ([syscall.Errno]), [os.ErrNotExist], and [fmt.Errorf] wrappers with
    their format string, their [%q] arguments and their [%w] operand.
    [ErrFuel] is the error of an exhausted recursion bound, which the
    bound chosen by [deleteRegKeyRecursive] never reaches. *)
Inductive error : Type :=
  | Errno (n : N)
  | ErrNotExist
  | Errorf (format : string) (args : list string) (inner : error)
  | ErrFuel.

Definition ERROR_FILE_NOT_FOUND : N := 2.
Definition ERROR_ACCESS_DENIED : N := 5.
Definition ERROR_KEY_DELETED : N := 1018.

(** [errors.Is(err, syscall.ENOENT)]; on Windows [syscall.ENOENT] is
    [ERROR_FILE_NOT_FOUND]; [%w] wrappers are unwrapped. *)
Fixpoint is_enoent (e : error) : bool :=
  match e with
  | Errno n => (n =? ERROR_FILE_NOT_FOUND)%N
  | Errorf _ _ inner => is_enoent inner
  | _ => false
  end.

(** A computation returns a value, returns a Go error, or terminates the
    process ([log.Fatal]). *)
Inductive Outcome (A : Type) : Type :=
  | Ok (a : A)
  | Err (e : error)
  | Exit (e : error).
Arguments Ok {A} a.
Arguments Err {A} e.
Arguments Exit {A} e.

(* ------------------------------------------------------------------ *)
(** ** Registry *)

Inductive ValType : Type := SZ | EXPAND_SZ.
Record RegValue : Type := mkRegValue { vtype : ValType; vdata : string }.

#[global] Instance ValType_eq_dec : EqDecision ValType.
Proof. solve_decision. Defined.
#[global] Instance RegValue_eq_dec : EqDecision RegValue.
Proof. solve_decision. Defined.

Inductive Op : Type :=
  | OpOpenKey
  | OpReadSubKeyNames
  | OpDeleteKey
  | OpCreateKey
  | OpSetValue (name : string).

(** One registry call: the call, the absolute key it addresses and the
    error code it returned ([None] on success). *)
Record Event : Type := mkEvent { ev_op : Op; ev_key : list string; ev_res : option N }.

(** The environment: the registry's rejections of calls, and the
    process's view of the file system used by [findNircmd]. *)
Record Env : Type := mkEnv {
  fault : Op -> list string -> option N;
  getwd : option string;
  executable : option string;
  is_file : string -> bool;
  look_path : string -> option string
}.

Record St : Type := mkSt {
  reg : gmap (list string) (gmap string RegValue);
  log : list Event;
  nircmd_cache : string   (** the global [_nircmdPath] *)
}.

Definition M (A : Type) : Type := Env -> St -> Outcome A * St.

Definition ret {A} (a : A) : M A := fun _ st => (Ok a, st).
Definition fail {A} (e : error) : M A := fun _ st => (Err e, st).
Definition fatal {A} (e : error) : M A := fun _ st => (Exit e, st).

Definition bind {A B} (m : M A) (k : A -> M B) : M B := fun env st =>
  match m env st with
  | (Ok a, st') => k a env st'
  | (Err e, st') => (Err e, st')
  | (Exit e, st') => (Exit e, st')
  end.

Notation "'let*' x := m 'in' k" := (bind m (fun x => k))
  (at level 200, x name, m at level 100, k at level 200).

(** [if err = m; err != nil { err = wrap(err); return }] *)
Definition with_context {A} (wrap : error -> error) (m : M A) : M A := fun env st =>
  match m env st with
  | (Err e, st') => (Err (wrap e), st')
  | r => r
  end.

(** Run [m] and inspect its error instead of returning it. *)
Definition attempt {A} (m : M A) : M (error + A) := fun env st =>
  match m env st with
  | (Ok a, st') => (Ok (inr a), st')
  | (Err e, st') => (Ok (inl e), st')
  | (Exit e, st') => (Exit e, st')
  end.

(** [for _, x := range l { if err = f(x); err != nil { return } }] *)
Fixpoint for_each {X} (l : list X) (f : X -> M unit) : M unit :=
  match l with
  | [] => ret tt
  | x :: rest => let* _ := f x in for_each rest f
  end.

Abbreviation Reg := (gmap (list string) (gmap string RegValue)).

Fixpoint strip_list (p q : list string) : option (list string) :=
  match p, q with
  | [], _ => Some q
  | a :: p', b :: q' => if String.eqb a b then strip_list p' q' else None
  | _ :: _, [] => None
  end.

Definition child_of (h q : list string) : option string :=
  match strip_list h q with
  | Some [c] => Some c
  | _ => None
  end.

(** Names of the direct subkeys of [h], in the map's enumeration order. *)
Definition subkeys (r : Reg) (h : list string) : list string :=
  omap (fun kv => child_of h kv.1) (map_to_list r).

(** Creating a key creates every missing key on its path. *)
Definition ensure_key (q : list string) (r : Reg) : Reg :=
  match r !! q with
  | Some _ => r
  | None => <[q := ∅]> r
  end.

Fixpoint ensure_path (pre rest : list string) (r : Reg) : Reg :=
  match rest with
  | [] => r
  | s :: rest' => ensure_path (pre ++ [s]) rest' (ensure_key (pre ++ [s]) r)
  end.

(** A registry call: the environment may reject it; otherwise [act]
    returns an error code or a result and the new registry. *)
Definition adapter_call {A} (o : Op) (h : list string)
    (act : Reg -> N + (A * Reg)) : M A := fun env st =>
  let res := match fault env o h with Some n => inl n | None => act (reg st) end in
  match res with
  | inl n => (Err (Errno n),
              mkSt (reg st) (log st ++ [mkEvent o h (Some n)]) (nircmd_cache st))
  | inr (a, r') => (Ok a, mkSt r' (log st ++ [mkEvent o h None]) (nircmd_cache st))
  end.

(** Key handles are absolute key paths; [registry.CURRENT_USER] is the root. *)
Definition CURRENT_USER : list string := [].

Definition OpenKey (k : list string) (path : string) : M (list string) :=
  let h := k ++ split_path path in
  adapter_call OpOpenKey h (fun r =>
    match r !! h with Some _ => inr (h, r) | None => inl ERROR_FILE_NOT_FOUND end).

Definition ReadSubKeyNames (key : list string) : M (list string) :=
  adapter_call OpReadSubKeyNames key (fun r =>
    match r !! key with Some _ => inr (subkeys r key, r) | None => inl ERROR_KEY_DELETED end).

(** [RegDeleteKey] deletes only a key without subkeys. *)
Definition DeleteKey (k : list string) (path : string) : M unit :=
  let h := k ++ split_path path in
  adapter_call OpDeleteKey h (fun r =>
    match r !! h with
    | None => inl ERROR_FILE_NOT_FOUND
    | Some _ =>
        match subkeys r h with
        | [] => inr (tt, delete h r)
        | _ :: _ => inl ERROR_ACCESS_DENIED
        end
    end).

Definition CreateKey (k : list string) (path : string) : M (list string) :=
  let h := k ++ split_path path in
  adapter_call OpCreateKey h (fun r => inr (h, ensure_path [] h r)).

Definition set_value (key : list string) (name : string) (v : RegValue) : M unit :=
  adapter_call (OpSetValue name) key (fun r =>
    match r !! key with
    | Some vals => inr (tt, <[key := <[name := v]> vals]> r)
    | None => inl ERROR_KEY_DELETED
    end).

Definition SetStringValue (key : list string) (name value : string) : M unit :=
  set_value key name (mkRegValue SZ value).

Definition SetExpandStringValue (key : list string) (name value : string) : M unit :=
  set_value key name (mkRegValue EXPAND_SZ value).

(* ------------------------------------------------------------------ *)
(** ** deleteRegKeyRecursive *)

(** The body of [deleteRegKeyRecursive k path]; [fuel] bounds the depth
    of the recursion. *)
Fixpoint erase_go (fuel : nat) (k : list string) (path : string) : M unit :=
  match fuel with
  | O => fail ErrFuel
  | S n =>
      let* opened := attempt (OpenKey k path) in
      match opened with
      | inl e =>
          if is_enoent e then ret tt
          else fail (Errorf "deleteRegKeyRecursive failed to open key path %q: %w" [path] e)
      | inr key =>
          let* subKeyNames :=
            with_context (Errorf "deleteRegKeyRecursive failed to get subkeys of path %q: %w" [path])
              (ReadSubKeyNames key) in
          let* _ := for_each subKeyNames (fun subKeyName =>
            with_context
              (Errorf "deleteRegKeyRecursive failed to delete subkey %q of path %q: %w" [subKeyName; path])
              (erase_go n key subKeyName)) in
          let* deleted := attempt (DeleteKey k path) in
          match deleted with
          | inl e =>
              if is_enoent e then ret tt
              else fail (Errorf "deleteRegKeyRecursive failed to delete key path %q: %w" [path] e)
          | inr _ => ret tt
          end
      end
  end.

Definition max_key_len (r : Reg) : nat :=
  list_max (map (fun kv => length kv.1) (map_to_list r)).

(** The recursion of [deleteRegKeyRecursive] is bounded by the depth of
    the registry: one more than the longest key path suffices. *)
Definition deleteRegKeyRecursive (k : list string) (path : string) : M unit :=
  fun env st => erase_go (S (max_key_len (reg st))) k path env st.

(* ------------------------------------------------------------------ *)
(** ** findNircmd *)

(** [filepath.Join] of clean components and [filepath.Dir]. *)
Definition path_join (a b : string) : string := (a ++ "\" ++ b)%string.

Definition path_dir (p : string) : string :=
  match rev (split_path p) with
  | _ :: (_ :: _) as rest => Join (rev rest) "\"
  | _ => "."
  end.

Definition nircmdFilename : string := "nircmd.exe".

(** The probing of [findNircmd]: the final value of [nircmdPath] and
    whether a file was found.  [exec.LookPath] returns [""] on failure. *)
Definition nircmd_search (env : Env) : string * bool :=
  let from_lookpath :=
    match look_path env nircmdFilename with
    | Some p => (p, true)
    | None => (EmptyString, false)
    end in
  let from_exe :=
    match executable env with
    | Some fp =>
        let p1 := path_join (path_dir fp) nircmdFilename in
        if is_file env p1 then (p1, true) else
        let p2 := path_join (path_join (path_dir fp) "bin") nircmdFilename in
        if is_file env p2 then (p2, true) else from_lookpath
    | None => from_lookpath
    end in
  match getwd env with
  | Some fp =>
      let p1 := path_join fp nircmdFilename in
      if is_file env p1 then (p1, true) else
      let p2 := path_join (path_join fp "bin") nircmdFilename in
      if is_file env p2 then (p2, true) else from_exe
  | None => from_exe
  end.

(** [findNircmd]: a non-empty cache is returned as is; otherwise the
    search runs and its final [nircmdPath] is cached by the [defer]. *)
Definition findNircmd : M string := fun env st =>
  match nircmd_cache st with
  | String _ _ => (Ok (nircmd_cache st), st)
  | EmptyString =>
      let (p, found) := nircmd_search env in
      let st' := mkSt (reg st) (log st) p in
      if found then (Ok p, st')
      else (Err (Errorf "nircmd.exe not found: %w" [] ErrNotExist), st')
  end.

(* ------------------------------------------------------------------ *)
(** ** The manifest *)

Definition ContextMenuType := string.
Definition ContextMenuType_Item : ContextMenuType := "item".
Definition ContextMenuType_Folder : ContextMenuType := "folder".

Set Warnings "-register-all".

(** [type ContextMenu struct]; [IconIndex *int] is an option, [Items] a
    Go map in its iteration order. *)
Inductive ContextMenu : Type :=
  mkContextMenu {
    Type_ : ContextMenuType;
    Title : string;
    IconPath : string;
    IconIndex : option Z;
    Extended : bool;
    Admin : bool;
    Command : list string;
    Items : list (string * ContextMenu)
  }.

(** Induction over manifest trees, through the [Items] of each node. *)
Section ContextMenu_nested_ind.
Variable P : ContextMenu -> Prop.
Hypothesis Hnode : forall typ title iconPath iconIndex extended admin command items,
  Forall (fun p => P (snd p)) items ->
  P (mkContextMenu typ title iconPath iconIndex extended admin command items).

Fixpoint ContextMenu_nested_ind (c : ContextMenu) : P c :=
  match c with
  | mkContextMenu typ title iconPath iconIndex extended admin command items =>
      Hnode typ title iconPath iconIndex extended admin command items
        ((fix go (l : list (string * ContextMenu)) : Forall (fun p => P (snd p)) l :=
            match l with
            | [] => @List.Forall_nil _ (fun p => P (snd p))
            | p :: l' => @List.Forall_cons _ (fun p => P (snd p)) p l'
                               (ContextMenu_nested_ind (snd p)) (go l')
            end) items)
  end.
End ContextMenu_nested_ind.

Definition manifestFolder : string := "${manifestFolder}".

(** [ContextMenu.Icon] *)
Definition Icon (c : ContextMenu) (manifestDir : string) : string :=
  let iconPath := IconPath c in
  if String.eqb iconPath EmptyString then EmptyString else
  let iconPath := ReplaceAll iconPath manifestFolder manifestDir in
  let iconPath := quoteWindowsPath iconPath in
  match IconIndex c with
  | Some i => (iconPath ++ "," ++ fmt_d i)%string
  | None => iconPath
  end.

(** The loop of [ContextMenu.CommandString] over [c.Command]. *)
Definition command_loop (command : list string) (parts : list string)
    (manifestDir : string) : list string :=
  fold_left (fun command part =>
      let part := ReplaceAll part manifestFolder manifestDir in
      let part := if ContainsAny part " %" then quoteWindowsPath part else part in
      command ++ [part])
    parts command.

(** [ContextMenu.CommandString]; a failed [findNircmd] ends the process
    through [log.Fatal]. *)
Definition CommandString (c : ContextMenu) (manifestDir : string) : M string :=
  let* command :=
    if Admin c then
      let* found := attempt findNircmd in
      match found with
      | inl err => fatal err
      | inr nircmdPath => ret [quoteWindowsPath nircmdPath; "elevate"]
      end
    else ret [] in
  ret (Join (command_loop command (Command c) manifestDir) " ").

(* ------------------------------------------------------------------ *)
(** ** createContextMenu and run *)

Definition shell_root : string := "Software\Classes\Directory\Background\shell".

Definition key_path (parent id : string) : string :=
  (shell_root ++ parent ++ "\" ++ id)%string.

(** [createContextMenu(parent, id, item, manifestDir)] *)
Fixpoint createContextMenu (parent id : string) (item : ContextMenu)
    (manifestDir : string) {struct item} : M unit :=
  match item with
  | mkContextMenu typ title iconPath iconIndex extended admin command items =>
  let keyPath := key_path parent id in
  let* _ := with_context (Errorf "failed to delete registry key %q: %w" [keyPath])
              (deleteRegKeyRecursive CURRENT_USER keyPath) in
  let* key := with_context (Errorf "failed to create registry key %q: %w" [keyPath])
                (CreateKey CURRENT_USER keyPath) in
  let* _ := with_context (Errorf "failed to set MUIVerb: %w" [])
              (SetStringValue key "MUIVerb" title) in
  let* _ := (let icon := Icon item manifestDir in
             if String.eqb icon EmptyString then ret tt
             else with_context (Errorf "failed to set Icon: %w" [])
                    (SetStringValue key "Icon" icon)) in
  let* _ := (if extended then
               with_context (Errorf "failed to set Extended: %w" [])
                 (SetStringValue key "Extended" EmptyString)
             else ret tt) in
  let* _ := (if admin then
               with_context (Errorf "failed to set HasLUAShield: %w" [])
                 (SetStringValue key "HasLUAShield" EmptyString)
             else ret tt) in
  if String.eqb typ ContextMenuType_Folder then
    let* _ := with_context (Errorf "failed to set SubCommands: %w" [])
                (SetStringValue key "SubCommands" EmptyString) in
    let* _ := with_context (Errorf "failed to create registry key %q: %w" [keyPath])
                (CreateKey CURRENT_USER (keyPath ++ "\shell")) in
    (fix loop (l : list (string * ContextMenu)) : M unit :=
       match l with
       | [] => ret tt
       | (subID, subItem) :: rest =>
           let* _ := with_context (Errorf "failed to create context menu ID %q: %w" [subID])
                       (createContextMenu (parent ++ "\" ++ id ++ "\shell") subID subItem
                          manifestDir) in
           loop rest
       end) items
  else
    let keyPath := (keyPath ++ "\command")%string in
    let* _ := with_context (Errorf "failed to delete registry key %q: %w" [keyPath])
                (deleteRegKeyRecursive CURRENT_USER keyPath) in
    let* key := with_context (Errorf "failed to create registry key %q: %w" [keyPath])
                  (CreateKey CURRENT_USER keyPath) in
    let* cmd := CommandString item manifestDir in
    with_context (Errorf "failed to set command string: %w" [])
      (SetExpandStringValue key EmptyString cmd)
  end.

(** The loop of [run] over [manifest.Items] (the manifest already read
    and parsed; [manifestDir] is the directory of manifest.json). *)
Definition run (items : list (string * ContextMenu)) (manifestDir : string) : M unit :=
  for_each items (fun '(id, item) =>
    with_context (Errorf "failed to create context menu ID %q: %w" [id])
      (createContextMenu "" id item manifestDir)).

(** One process: a fresh [_nircmdPath] cache and an empty call log. *)
Definition install (items : list (string * ContextMenu)) (manifestDir : string)
    (env : Env) (r : Reg) : Outcome unit * St :=
  run items manifestDir env (mkSt r [] EmptyString).

(* ------------------------------------------------------------------ *)
(** ** The projections as the specification states them *)

(** §4.4: a token is quoted when it contains a space or a percent sign. *)
Definition has_space_or_percent (p : string) : bool :=
  existsb (fun ch => Ascii.eqb ch " " || Ascii.eqb ch "%") (list_ascii_of_string p).

Definition spec_project_token (manifestDir t : string) : string :=
  let p := ReplaceAll t manifestFolder manifestDir in
  if has_space_or_percent p then quoteWindowsPath p else p.

(** §4.4 [projectCommand] without elevation: substituted, conditionally
    quoted tokens joined by single spaces. *)
Definition spec_projectCommand (tokens : list string) (manifestDir : string) : string :=
  Join (map (spec_project_token manifestDir) tokens) " ".

(* ------------------------------------------------------------------ *)
(** ** Sample inputs *)

Definition no_faults : Op -> list string -> option N := fun _ _ => None.

(** nircmd.exe lies in [C:\menu\bin], the working directory is [C:\menu]. *)
Definition env_menu : Env :=
  mkEnv no_faults (Some "C:\menu") None
        (fun s => String.eqb s "C:\menu\bin\nircmd.exe") (fun _ => None).

(** nircmd.exe is nowhere. *)
Definition env_no_nircmd : Env :=
  mkEnv no_faults (Some "C:\menu") (Some "C:\menu\ctx.exe") (fun _ => false) (fun _ => None).

Definition st_empty : St := mkSt ∅ [] EmptyString.

(** A registry with the keys [a], [a\b], [a\b\c] and [d]. *)
Definition reg_sample : Reg :=
  {[ ["a"] := ∅; ["a"; "b"] := ∅; ["a"; "b"; "c"] := ∅; ["d"] := ∅ ]}.

Definition st_sample : St := mkSt reg_sample [] EmptyString.

(** The delete of [a] reports not-found: some other process removed it first. *)
Definition env_delete_race : Env :=
  mkEnv (fun o q => match o, q with
                    | OpDeleteKey, ["a"] => Some ERROR_FILE_NOT_FOUND
                    | _, _ => None
                    end)
        (Some "C:\menu") None (fun _ => false) (fun _ => None).

Definition run_bat_item : ContextMenu :=
  mkContextMenu "item" "Run" "" None false false
    ["explorer.exe"; "${manifestFolder}\tools\run.bat"] [].

Definition admin_item : ContextMenu :=
  mkContextMenu "item" "Run as admin" "" None false true
    ["cmd.exe"; "/k"; "echo %PATH%"] [].

(* ------------------------------------------------------------------ *)
(** ** Key paths and call traces *)

(** [under p q]: [q] is [p] or lies below [p]. *)
Definition under (p q : list string) : Prop := exists t, q = p ++ t.

Definition under_b (p q : list string) : bool :=
  match strip_list p q with Some _ => true | None => false end.

(** Registry key names are backslash free. *)
Definition seg_ok (s : string) : Prop := Forall (fun ch => ch <> bs) (list_ascii_of_string s).

(** A well-formed registry: no key at the root itself, backslash-free
    names, and every proper prefix of a key is a key. *)
Definition wf_reg (r : Reg) : Prop :=
  forall q v, r !! q = Some v ->
    q <> [] /\ Forall seg_ok q /\
    forall i, 0 < i < length q -> is_Some (r !! take i q).

(** A decidable form of [wf_reg], checked key by key. *)
Definition wf_key (r : Reg) (q : list string) : Prop :=
  q <> [] /\ Forall seg_ok q /\
  Forall (fun i => is_Some (r !! take i q)) (seq 1 (length q - 1)).

Definition wf_reg_check (r : Reg) : bool :=
  bool_decide (map_Forall (fun q _ => wf_key r q) r).


(** Calls whose failure [deleteRegKeyRecursive] tolerates: a not-found
    answer to opening or deleting a key. *)
Definition tolerated (ev : Event) : Prop :=
  ev_res ev = Some ERROR_FILE_NOT_FOUND /\ (ev_op ev = OpOpenKey \/ ev_op ev = OpDeleteKey).

(** A failed call that is not tolerated. *)
Definition bad (ev : Event) : Prop := ev_res ev <> None /\ ~ tolerated ev.

(** The registry error code at the bottom of a chain of wrappers. *)
Fixpoint root_errno (e : error) : option N :=
  match e with
  | Errno n => Some n
  | Errorf _ _ inner => root_errno inner
  | _ => None
  end.

(** Fail-fast outcome of a run with the calls [calls]: success and no
    untolerated failure, or an error whose root is the code of the last
    call, the first and only untolerated failure. *)
Definition trace_ok (res : Outcome unit) (calls : list Event) : Prop :=
  (res = Ok tt /\ Forall (fun ev => ~ bad ev) calls) \/
  (exists e calls' ev, res = Err e /\ calls = calls' ++ [ev] /\ bad ev /\
                       ev_res ev = root_errno e /\ Forall (fun ev => ~ bad ev) calls').

(** Post-order: after a [DeleteKey] of a key no call addresses that key
    or anything below it. *)
Definition post_order (calls : list Event) : Prop :=
  forall i j ei ej, calls !! i = Some ei -> calls !! j = Some ej -> i < j ->
    ev_op ei = OpDeleteKey -> ~ under (ev_key ei) (ev_key ej).

(** An error built by [fmt.Errorf] whose [%q] arguments include [path]. *)
Definition wrapped_with (path : string) (e : error) : Prop :=
  exists f args inner, e = Errorf f args inner /\ path ∈ args.

(** What is established of a run of [deleteRegKeyRecursive] on the key
    [h] (named [path] in its error messages), from [st] to [st'] with
    result [res]: the calls it made, that it only removes keys below [h],
    keeps the registry well formed, addresses only keys below [h], in
    post-order, fails fast, and wraps its errors with [path]. *)
Definition erase_post (h : list string) (path : string) (st st' : St) (res : Outcome unit) : Prop :=
  exists calls,
    log st' = log st ++ calls /\ nircmd_cache st' = nircmd_cache st /\
    (forall q, reg st' !! q = reg st !! q \/ (under h q /\ reg st' !! q = None)) /\
    wf_reg (reg st') /\
    Forall (fun ev => under h (ev_key ev)) calls /\ post_order calls /\
    trace_ok res calls /\ (forall e, res = Err e -> wrapped_with path e).

#[global] Instance under_dec (p q : list string) : Decision (under p q).
Proof.
  unfold under. destruct (strip_list p q) as [t|] eqn:E; [left|right].
  - exists t. revert q t E. induction p as [|a p IH]; intros [|b q] t E; simpl in E;
      try discriminate E.
    + by injection E as <-.
    + by injection E as <-.
    + destruct (String.eqb_spec a b) as [<-|]; [|discriminate E].
      simpl. f_equal. by apply IH.
  - intros [t ->]. revert E. induction p as [|a p IH]; simpl; [discriminate|].
    rewrite String.eqb_refl. exact IH.
Defined.

(* ------------------------------------------------------------------ *)
(** ** Pointwise effects of fault-free runs *)

(** A registry slot: the values of a key, or [None] for an absent key. *)
Abbreviation Slot := (option (gmap string RegValue)).

(** A registry transformation acting on each key separately. *)
Abbreviation Eff := (list string -> Slot -> Slot).

(** [CreateKey] on an existing key keeps it, on a missing key creates it empty. *)
Definition ens (x : Slot) : Slot :=
  match x with None => Some ∅ | Some m => Some m end.

(** [q] is a non-root prefix of [h]: a key [CreateKey h] ensures. *)
Definition on_path (q h : list string) : Prop := q <> [] /\ under q h.

#[global] Instance on_path_dec (q h : list string) : Decision (on_path q h).
Proof. unfold on_path. apply _. Defined.

Definition eff_erase (h : list string) (F : Eff) : Eff :=
  fun q x => if decide (under h q) then None else F q x.

Definition eff_create (h : list string) (F : Eff) : Eff :=
  fun q x => if decide (on_path q h) then ens (F q x) else F q x.

Definition eff_set (h : list string) (name : string) (v : RegValue) (F : Eff) : Eff :=
  fun q x => if decide (q = h) then option_map (insert name v) (F q x) else F q x.

(** In the environment [env], from any well-formed state with cache [c]
    whose registry is [F0] applied to some [r0], the program [m] ends with
    outcome [o] and cache [c'] in a well-formed state whose registry is
    [F1] applied to [r0]. *)
Definition runs_from {A} (env : Env) (F0 : Eff) (m : M A) (c : string)
    (o : Outcome A) (c' : string) (F1 : Eff) : Prop :=
  forall (r0 : Reg) (st : St), wf_reg (reg st) -> nircmd_cache st = c ->
    (forall q, reg st !! q = F0 q (r0 !! q)) ->
    fst (m env st) = o /\ nircmd_cache (snd (m env st)) = c' /\
    wf_reg (reg (snd (m env st))) /\ forall q, reg (snd (m env st)) !! q = F1 q (r0 !! q).

(** The outcome of [with_context wrap m] when [m] has outcome [o]. *)
Definition wrap_out {A} (wrap : error -> error) (o : Outcome A) : Outcome A :=
  match o with Err e => Err (wrap e) | _ => o end.

(** The slot transformations of a whole fault-free install: a constant,
    the identity, or [ens]. *)
Definition slot_kind (f : Slot -> Slot) : Prop :=
  (exists a, forall x, f x = a) \/ (forall x, f x = x) \/ (forall x, f x = ens x).

(** A key's slot before and after a call: [foot P r r'] says that [r']
    differs from [r] only at or below [P], or by a new empty key on the
    path to [P]. *)
Definition foot (P : list string) (r r' : Reg) : Prop :=
  forall q, r' !! q = r !! q \/ under P q \/ (under q P /\ r !! q = None /\ r' !! q = Some ∅).

(** [m] keeps the registry well formed and changes it only as [foot P]
    allows, whatever the environment and the outcome. *)
Definition stays {A} (P : list string) (m : M A) : Prop :=
  forall env st, wf_reg (reg st) ->
    wf_reg (reg (snd (m env st))) /\ foot P (reg st) (reg (snd (m env st))).

(** ** More sample inputs *)

(** Two manifest IDs whose keys nest: [a\command] is also the command
    subkey of [a]. *)
Definition item_x : ContextMenu := mkContextMenu "item" "X" "" None false false ["x.exe"] [].
Definition items_collide_ab : list (string * ContextMenu) := [("a", item_x); ("a\command", item_x)].
Definition items_collide_ba : list (string * ContextMenu) := [("a\command", item_x); ("a", item_x)].

(** Setting the value [name] of key [q] is refused. *)
Definition env_fail_set (name : string) (q : list string) : Env :=
  mkEnv (fun o q' => match o with
                     | OpSetValue n =>
                         if String.eqb n name && bool_decide (q' = q)
                         then Some ERROR_ACCESS_DENIED else None
                     | _ => None
                     end)
        (Some "C:\menu") None (fun s => String.eqb s "C:\menu\bin\nircmd.exe") (fun _ => None).

Definition env_fail_a_command : Env :=
  env_fail_set "MUIVerb" (split_path (key_path "" "a\command")).

Definition items_five : list (string * ContextMenu) :=
  [("a", item_x); ("b", item_x); ("a\command", item_x); ("d", item_x); ("e", item_x)].

(** The node [c] with its [Items] replaced by [items]. *)
Definition with_items (c : ContextMenu) (items : list (string * ContextMenu)) : ContextMenu :=
  mkContextMenu (Type_ c) (Title c) (IconPath c) (IconIndex c) (Extended c) (Admin c)
    (Command c) items.

(** A key slot without a [SubCommands] value. *)
Definition no_subcommands (x : Slot) : Prop :=
  forall vals, x = Some vals -> vals !! "SubCommands" = None.

(** A node with an empty type field that still lists a child. *)
Definition item_untyped : ContextMenu :=
  mkContextMenu EmptyString "Odd" "" None false false ["x.exe"] [("sub", item_x)].

(* ------------------------------------------------------------------ *)
(** ** findManifest, run and main *)

(** [const manifestFilename] of [findManifest] *)
Definition manifestFilename : string := "manifest.json".

(** [findManifest]: manifest.json in the working directory, then in the
    directory of the executable; [is_file] is [os.Stat] succeeding on a
    non-directory.  The path of a failed search is not used by [run]. *)
Definition findManifest : M string := fun env st =>
  let not_found := (Err (Errorf "manifest.json not found: %w" [] ErrNotExist), st) in
  let from_exe :=
    match executable env with
    | Some fp =>
        let manifestPath := path_join (path_dir fp) manifestFilename in
        if is_file env manifestPath then (Ok manifestPath, st) else not_found
    | None => not_found
    end in
  match getwd env with
  | Some fp =>
      let manifestPath := path_join fp manifestFilename in
      if is_file env manifestPath then (Ok manifestPath, st) else from_exe
  | None => from_exe
  end.

(** The file system and decoder [run] uses: [os.ReadFile] (the contents
    of a file or its error) and [json.Unmarshal] into a [Manifest] (its
    [Items] in [range] order, or the decoding error). *)
Record Files : Type := mkFiles {
  ReadFile : string -> error + string;
  Unmarshal : string -> error + list (string * ContextMenu)
}.

(** A Go [(value, err)] pair as a computation. *)
Definition of_result {A} (x : error + A) : M A := fun _ st =>
  match x with
  | inl e => (Err e, st)
  | inr a => (Ok a, st)
  end.

(** [run()] *)
Definition run_main (fs : Files) : M unit :=
  let* manifestPath := findManifest in
  let manifestDir := path_dir manifestPath in
  let* manifestData := with_context (Errorf "failed to read manifest.json: %w" [])
                         (of_result (ReadFile fs manifestPath)) in
  let* manifest := with_context (Errorf "failed to parse manifest.json: %w" [])
                     (of_result (Unmarshal fs manifestData)) in
  run manifest manifestDir.

(** [main()]: an error of [run] ends the process through [log.Fatal]. *)
Definition main (fs : Files) : M unit := fun env st =>
  match run_main fs env st with
  | (Err e, st') => (Exit e, st')
  | res => res
  end.

(** The paths [findManifest] probes, in order. *)
Definition manifest_candidates (env : Env) : list string :=
  match getwd env with
  | Some fp => [path_join fp manifestFilename]
  | None => []
  end ++
  match executable env with
  | Some fp => [path_join (path_dir fp) manifestFilename]
  | None => []
  end.

(** The values of a node's key as [createContextMenu] sets them: [MUIVerb],
    then [Icon] (unless empty), [Extended], [HasLUAShield] and, for a
    folder, [SubCommands]. *)
Definition node_values (c : ContextMenu) (manifestDir : string) : gmap string RegValue :=
  let vals := <["MUIVerb" := mkRegValue SZ (Title c)]> ∅ in
  let icon := Icon c manifestDir in
  let vals := if String.eqb icon EmptyString then vals
              else <["Icon" := mkRegValue SZ icon]> vals in
  let vals := if Extended c then <["Extended" := mkRegValue SZ EmptyString]> vals else vals in
  let vals := if Admin c then <["HasLUAShield" := mkRegValue SZ EmptyString]> vals else vals in
  if String.eqb (Type_ c) ContextMenuType_Folder
  then <["SubCommands" := mkRegValue SZ EmptyString]> vals else vals.

(** Reading back a decimal number as [%d] prints it. *)
Definition digit_value (c : ascii) : option N :=
  let n := Ascii.N_of_ascii c in
  if ((48 <=? n)%N && (n <=? 57)%N)%bool then Some (n - 48)%N else None.

Fixpoint dec_from (v : N) (s : string) : option N :=
  match s with
  | EmptyString => Some v
  | String c s' =>
      match digit_value c with
      | Some d => dec_from (10 * v + d)%N s'
      | None => None
      end
  end.

Definition decimal_value (s : string) : option Z :=
  match s with
  | EmptyString => None
  | String c s' =>
      if Ascii.eqb c "-" then
        match s' with
        | EmptyString => None
        | _ => option_map (fun n => Z.opp (Z.of_N n)) (dec_from 0 s')
        end
      else option_map Z.of_N (dec_from 0 s)
  end.

(** A manifest of one item at [C:\menu], for the runs of [main]. *)
Definition files_menu : Files :=
  mkFiles (fun p => if String.eqb p "C:\menu\manifest.json" then inr "{}" else inl ErrNotExist)
          (fun _ => inr [("a", item_x)]).

Definition env_menu_manifest : Env :=
  mkEnv no_faults (Some "C:\menu") (Some "C:\menu\ctx.exe")
        (fun p => String.eqb p "C:\menu\manifest.json") (fun _ => None).

(** A folder with one item. *)
Definition folder_sample : ContextMenu :=
  mkContextMenu "folder" "Tools" "C:\icons\tools.ico" (Some 2%Z) true true [] [("x", item_x)].

(* ================================================================== *)
(** * String lemmas *)

Lemma sapp_nil_r (s : string) : (s ++ EmptyString)%string = s.
Proof. induction s as [|ch s IH]; simpl; congruence. Qed.

Lemma sapp_assoc (a b c : string) : (a ++ (b ++ c))%string = ((a ++ b) ++ c)%string.
Proof. induction a as [|ch a IH]; simpl; congruence. Qed.

(* ================================================================== *)
(** * Attribute projection *)

Lemma ContainsAny_space_percent (p : string) :
  ContainsAny p " %" = has_space_or_percent p.
Proof.
  unfold ContainsAny, has_space_or_percent. simpl.
  induction (list_ascii_of_string p) as [|ch l IH]; simpl; [done|].
  rewrite orb_false_r, IH. done.
Qed.

Lemma command_loop_map (acc parts : list string) (dir : string) :
  command_loop acc parts dir = acc ++ map (spec_project_token dir) parts.
Proof.
  revert acc. induction parts as [|t parts IH]; intros acc; simpl.
  - by rewrite app_nil_r.
  - unfold command_loop in *. simpl. rewrite IH, <- app_assoc.
    unfold spec_project_token. rewrite ContainsAny_space_percent. done.
Qed.

Lemma CommandString_not_admin (c : ContextMenu) (dir : string) (env : Env) (st : St) :
  Admin c = false ->
  CommandString c dir env st = (Ok (spec_projectCommand (Command c) dir), st).
Proof.
  intros Hadmin. unfold CommandString, bind, ret. rewrite Hadmin.
  rewrite command_loop_map. done.
Qed.

(** C1 (corrected): with [admin=false] and the tokens
    [explorer.exe] and [${manifestFolder}\tools\run.bat] under the base
    directory [C:\menu], the projected string is
    [explorer.exe C:\menu\tools\run.bat]: the substituted second token
    holds neither a space nor a percent sign, so it is not quoted. *)
Theorem CommandString_run_bat (c : ContextMenu) (env : Env) (st : St) :
  Admin c = false ->
  Command c = ["explorer.exe"; "${manifestFolder}\tools\run.bat"] ->
  CommandString c "C:\menu" env st = (Ok "explorer.exe C:\menu\tools\run.bat", st).
Proof.
  intros Hadmin Hcmd. rewrite CommandString_not_admin by done.
  rewrite Hcmd. reflexivity.
Qed.

Lemma CommandString_run_bat_witness :
  Admin run_bat_item = false /\
  CommandString run_bat_item "C:\menu" env_menu st_empty
    = (Ok "explorer.exe C:\menu\tools\run.bat", st_empty).
Proof.
  split; [reflexivity|].
  apply (CommandString_run_bat run_bat_item env_menu st_empty); reflexivity.
Defined.

(** C1 refuted: the projected string is not
    [explorer.exe "C:\menu\tools\run.bat"]. *)
Lemma CommandString_run_bat_not_quoted :
  fst (CommandString run_bat_item "C:\menu" env_menu st_empty)
    <> Ok ("explorer.exe " ++ String dq ("C:\menu\tools\run.bat" ++ String dq EmptyString))%string.
Proof. vm_compute. intros H. discriminate H. Qed.

(** C2 (corrected): when [admin] is set and nircmd.exe is found nowhere
    (empty cache, every probe failing), [CommandString] ends the process
    through [log.Fatal] with the not-found error: it neither returns a
    command string nor returns the error to its caller. *)
Theorem CommandString_no_helper_exits (c : ContextMenu) (dir : string) (env : Env) (st : St) :
  Admin c = true ->
  nircmd_cache st = EmptyString ->
  snd (nircmd_search env) = false ->
  CommandString c dir env st =
    (Exit (Errorf "nircmd.exe not found: %w" [] ErrNotExist),
     mkSt (reg st) (log st) (fst (nircmd_search env))).
Proof.
  intros Hadmin Hcache Hsearch.
  unfold CommandString, bind, attempt, findNircmd. rewrite Hadmin, Hcache.
  destruct (nircmd_search env) as [p found]. simpl in Hsearch. subst found. done.
Qed.

Lemma CommandString_no_helper_exits_witness :
  Admin admin_item = true /\ nircmd_cache st_empty = EmptyString /\
  snd (nircmd_search env_no_nircmd) = false /\
  CommandString admin_item "C:\menu" env_no_nircmd st_empty =
    (Exit (Errorf "nircmd.exe not found: %w" [] ErrNotExist),
     mkSt ∅ [] (fst (nircmd_search env_no_nircmd))).
Proof.
  split; [reflexivity|]. split; [reflexivity|]. split; [reflexivity|].
  apply (CommandString_no_helper_exits admin_item "C:\menu" env_no_nircmd st_empty);
    reflexivity.
Defined.

(** C2 refuted: installing an elevated item where nircmd.exe cannot be
    found does not end in an error returned up the call chain. *)
Lemma install_no_helper_not_err :
  ~ (exists e, fst (install [("x", admin_item)] "C:\menu" env_no_nircmd ∅) = Err e).
Proof. vm_compute. intros [e H]. discriminate H. Qed.

(** C3: without elevation, [CommandString] substitutes the base directory
    in every token, quotes exactly the tokens containing a space or a
    percent sign and joins them with single spaces. *)
Theorem CommandString_spec (c : ContextMenu) (dir : string) (env : Env) (st : St) :
  Admin c = false ->
  CommandString c dir env st = (Ok (spec_projectCommand (Command c) dir), st).
Proof. apply CommandString_not_admin. Qed.

Lemma CommandString_spec_witness :
  Admin run_bat_item = false /\
  CommandString run_bat_item "C:\menu" env_menu st_empty =
    (Ok (spec_projectCommand (Command run_bat_item) "C:\menu"), st_empty).
Proof. split; [reflexivity|]. apply CommandString_spec. reflexivity. Defined.

(** C4: [Icon] is empty when [iconPath] is empty, whatever the index;
    otherwise it is the substituted path in double quotes, followed by a
    comma and the index exactly when an index is present.  For
    [${manifestFolder}\icons\app.dll], index 2 and [C:\menu] it is
    ["C:\menu\icons\app.dll",2]. *)
Theorem Icon_spec :
  (forall (c : ContextMenu) (dir : string),
     Icon c dir =
       if String.eqb (IconPath c) EmptyString then EmptyString
       else (String dq (ReplaceAll (IconPath c) manifestFolder dir ++ String dq EmptyString) ++
             match IconIndex c with
             | Some i => "," ++ fmt_d i
             | None => EmptyString
             end)%string) /\
  Icon (mkContextMenu "item" "App" "${manifestFolder}\icons\app.dll" (Some 2%Z)
          false false [] []) "C:\menu"
    = String dq ("C:\menu\icons\app.dll" ++ String dq ",2")%string.
Proof.
  split.
  - intros c dir. unfold Icon.
    destruct (String.eqb (IconPath c) EmptyString); [done|].
    unfold quoteWindowsPath. destruct (IconIndex c); simpl.
    + done.
    + rewrite sapp_nil_r. done.
  - reflexivity.
Qed.

(** C5: with [admin] set and nircmd.exe located at [H], the command
    string is the quoted [H], a space and [elevate], followed (after one
    more space, when the node has tokens) by the node's own projected
    tokens. *)
Theorem CommandString_admin_prefix (c : ContextMenu) (dir H : string) (env : Env) (st st' : St) :
  Admin c = true ->
  findNircmd env st = (Ok H, st') ->
  CommandString c dir env st =
    (Ok (String dq (H ++ String dq EmptyString) ++ " elevate" ++
         match Command c with
         | [] => EmptyString
         | _ :: _ => " " ++ spec_projectCommand (Command c) dir
         end)%string, st').
Proof.
  intros Hadmin Hfind. unfold CommandString, bind, attempt, ret.
  rewrite Hadmin, Hfind, command_loop_map. simpl.
  unfold spec_projectCommand, quoteWindowsPath.
  destruct (Command c) as [|t l]; simpl.
  - done.
  - rewrite <- !sapp_assoc. simpl. done.
Qed.

Lemma CommandString_admin_prefix_witness :
  Admin admin_item = true /\
  findNircmd env_menu st_empty = (Ok "C:\menu\bin\nircmd.exe", mkSt ∅ [] "C:\menu\bin\nircmd.exe") /\
  CommandString admin_item "C:\menu" env_menu st_empty =
    (Ok (String dq ("C:\menu\bin\nircmd.exe" ++ String dq EmptyString) ++ " elevate" ++
         " " ++ spec_projectCommand (Command admin_item) "C:\menu")%string,
     mkSt ∅ [] "C:\menu\bin\nircmd.exe").
Proof.
  split; [reflexivity|]. split; [reflexivity|].
  apply (CommandString_admin_prefix admin_item "C:\menu" "C:\menu\bin\nircmd.exe"
           env_menu st_empty); reflexivity.
Defined.

(* ================================================================== *)
(** * Key paths *)

Lemma strip_list_spec (p q t : list string) : strip_list p q = Some t <-> q = p ++ t.
Proof.
  revert q. induction p as [|a p IH]; intros q; simpl.
  - split; congruence.
  - destruct q as [|b q].
    + split; [congruence | intros H; discriminate H].
    + destruct (String.eqb_spec a b) as [->|Hne].
      * rewrite IH. split; [intros ->; done | intros H; injection H; done].
      * split; [intros H; discriminate H | intros H; injection H; intros; congruence].
Qed.

Lemma under_b_spec (p q : list string) : under_b p q = true <-> under p q.
Proof.
  unfold under_b, under. destruct (strip_list p q) as [t|] eqn:E.
  - apply strip_list_spec in E. split; [intros _; by exists t | done].
  - split; [intros H; discriminate H|]. intros [t Ht].
    apply (strip_list_spec p q t) in Ht. congruence.
Qed.

Lemma under_refl (p : list string) : under p p.
Proof. exists []. by rewrite app_nil_r. Qed.

Lemma under_trans (p q s : list string) : under p q -> under q s -> under p s.
Proof. intros [t ->] [u ->]. exists (t ++ u). by rewrite app_assoc. Qed.

Lemma under_app (p t : list string) : under p (p ++ t).
Proof. by exists t. Qed.

Lemma under_length (p q : list string) : under p q -> length p <= length q.
Proof. intros [t ->]. rewrite length_app. lia. Qed.

Lemma under_app_inv (p a b : list string) : under (p ++ a) (p ++ b) -> under a b.
Proof. intros [t Ht]. exists t. rewrite <- app_assoc in Ht. by apply app_inv_head in Ht. Qed.

Lemma under_singleton_ne (h : list string) (c c' : string) (t u : list string) :
  c <> c' -> h ++ c :: t = h ++ c' :: u -> False.
Proof. intros Hne H. apply app_inv_head in H. injection H. intros. congruence. Qed.

Lemma child_of_spec (h q : list string) (c : string) : child_of h q = Some c <-> q = h ++ [c].
Proof.
  unfold child_of. destruct (strip_list h q) as [t|] eqn:E.
  - apply strip_list_spec in E. subst q.
    destruct t as [|a [|b t]]; split; intros H; simplify_eq/=; try done;
      apply app_inv_head in H; simplify_eq/=; done.
  - split; [intros H; discriminate H|]. intros ->.
    assert (strip_list h (h ++ [c]) = Some [c]) by (by apply strip_list_spec). congruence.
Qed.

Lemma subkeys_spec (r : Reg) (h : list string) (c : string) :
  c ∈ subkeys r h <-> is_Some (r !! (h ++ [c])).
Proof.
  unfold subkeys. rewrite list_elem_of_omap. split.
  - intros [[q v] [Hin Hc]]. apply elem_of_map_to_list in Hin.
    apply child_of_spec in Hc. simpl in Hc. subst q. by exists v.
  - intros [v Hv]. exists (h ++ [c], v). split.
    + by apply elem_of_map_to_list.
    + apply child_of_spec. done.
Qed.

Lemma NoDup_omap_fst {V} (f : list string -> option string) (l : list (list string * V)) :
  NoDup l.*1 -> (forall x y c, f x = Some c -> f y = Some c -> x = y) ->
  NoDup (omap (fun kv => f kv.1) l).
Proof.
  intros Hnd Hinj. induction l as [|[q v] l IH]; simpl; [constructor|].
  inversion Hnd as [|? ? Hnot Hnd']; subst.
  destruct (f q) as [c|] eqn:Ef; [|by apply IH].
  constructor; [|by apply IH].
  intros Hin. apply list_elem_of_omap in Hin as [[q' v'] [Hin' Hc]].
  simpl in Hc. assert (q' = q) by (eapply Hinj; eauto). subst q'.
  apply Hnot. apply list_elem_of_fmap. exists (q, v'). done.
Qed.

Lemma subkeys_NoDup (r : Reg) (h : list string) : NoDup (subkeys r h).
Proof.
  apply NoDup_omap_fst; [apply NoDup_fst_map_to_list|].
  intros x y c Hx Hy. apply child_of_spec in Hx, Hy. congruence.
Qed.

(** Splitting at backslashes. *)
Lemma split_path_nonempty (s : string) : split_path s <> [].
Proof.
  destruct s as [|ch s]; simpl; [done|].
  destruct (Ascii.eqb ch bs); [done|]. destruct (split_path s); done.
Qed.

Lemma split_path_seg_ok (s : string) : Forall seg_ok (split_path s).
Proof.
  induction s as [|ch s IH]; simpl.
  - repeat constructor.
  - destruct (Ascii.eqb_spec ch bs) as [->|Hne].
    + constructor; [constructor|done].
    + destruct (split_path s) as [|h t] eqn:E; [by apply split_path_nonempty in E|].
      inversion IH as [|? ? Hh Ht]; subst. constructor; [|done].
      unfold seg_ok in *. simpl. by constructor.
Qed.

Lemma split_path_seg (c : string) : seg_ok c -> split_path c = [c].
Proof.
  unfold seg_ok. induction c as [|ch c IH]; simpl; intros Hok; [done|].
  inversion Hok as [|? ? Hch Hrest]; subst.
  destruct (Ascii.eqb_spec ch bs) as [->|_]; [done|]. by rewrite IH.
Qed.

Lemma split_path_app (s t : string) :
  split_path (s ++ String bs t)%string = split_path s ++ split_path t.
Proof.
  induction s as [|ch s IH]; simpl.
  - done.
  - rewrite IH. destruct (Ascii.eqb ch bs); [done|].
    destruct (split_path s) as [|h u] eqn:E; [by apply split_path_nonempty in E|]. done.
Qed.

(* ================================================================== *)
(** * Traces *)

Lemma trace_ok_app_ok (calls1 calls2 : list Event) (res : Outcome unit) :
  Forall (fun ev => ~ bad ev) calls1 -> trace_ok res calls2 -> trace_ok res (calls1 ++ calls2).
Proof.
  intros H1 [[-> H2]|(e & calls' & ev & -> & -> & Hb & Hr & H')].
  - left. split; [done|]. by apply Forall_app.
  - right. exists e, (calls1 ++ calls'), ev. rewrite app_assoc.
    do 4 (split; [done|]). by apply Forall_app.
Qed.

Lemma trace_ok_wrap (f : string) (args : list string) (e : error) (calls : list Event) :
  trace_ok (Err e) calls -> trace_ok (Err (Errorf f args e)) calls.
Proof.
  intros [[H _]|(e' & calls' & ev & He & Hc & Hb & Hr & H')]; [discriminate H|].
  injection He as <-. right. exists (Errorf f args e), calls', ev. done.
Qed.

Lemma trace_ok_single_ok (ev : Event) : ~ bad ev -> trace_ok (Ok tt) [ev].
Proof. intros H. left. split; [done|]. by repeat constructor. Qed.

Lemma trace_ok_single_err (ev : Event) (e : error) :
  bad ev -> ev_res ev = root_errno e -> trace_ok (Err e) [ev].
Proof. intros Hb Hr. right. exists e, [], ev. done. Qed.

Lemma post_order_app (calls1 calls2 : list Event) :
  post_order calls1 -> post_order calls2 ->
  (forall e1 e2, e1 ∈ calls1 -> e2 ∈ calls2 -> ev_op e1 = OpDeleteKey ->
     ~ under (ev_key e1) (ev_key e2)) ->
  post_order (calls1 ++ calls2).
Proof.
  intros H1 H2 H12 i j ei ej Hi Hj Hij Hop.
  destruct (decide (i < length calls1)) as [Hi1|Hi1].
  - rewrite lookup_app_l in Hi by done.
    destruct (decide (j < length calls1)) as [Hj1|Hj1].
    + rewrite lookup_app_l in Hj by done. by apply (H1 i j).
    + rewrite lookup_app_r in Hj by lia.
      apply H12; [by eapply list_elem_of_lookup_2 | by eapply list_elem_of_lookup_2 | done].
  - rewrite lookup_app_r in Hi by lia. rewrite lookup_app_r in Hj by lia.
    apply (H2 (i - length calls1) (j - length calls1)); try done. lia.
Qed.

Lemma post_order_no_delete (calls : list Event) :
  Forall (fun ev => ev_op ev <> OpDeleteKey) calls -> post_order calls.
Proof.
  intros H i j ei ej Hi _ _ Hop. rewrite Forall_lookup in H. by apply H in Hi.
Qed.

Lemma post_order_single (ev : Event) : post_order [ev].
Proof.
  intros i j ei ej Hi Hj Hij _.
  apply lookup_lt_Some in Hj. simpl in Hj. lia.
Qed.

(* ================================================================== *)
(** * Well-formed registries *)

Lemma take_S_snoc (q : list string) (i : nat) :
  i < length q -> exists x, take (S i) q = take i q ++ [x].
Proof.
  intros Hi. destruct (lookup_lt_is_Some_2 q i Hi) as [x Hx].
  exists x. by apply take_S_r.
Qed.

Lemma wf_delete (r : Reg) (h : list string) :
  wf_reg r -> subkeys r h = [] -> wf_reg (delete h r).
Proof.
  intros Hwf Hsub q v Hq.
  destruct (decide (q = h)) as [->|Hne]; [by rewrite lookup_delete_eq in Hq|].
  rewrite lookup_delete_ne in Hq by congruence.
  destruct (Hwf q v Hq) as (Hnil & Hseg & Hpre). split; [done|]. split; [done|].
  intros i Hi. destruct (decide (take i q = h)) as [Ht|Ht].
  - exfalso. destruct (take_S_snoc q i ltac:(lia)) as [x Hx].
    assert (Hsome : is_Some (r !! take (S i) q)).
    { destruct (decide (S i < length q)).
      - apply Hpre. lia.
      - rewrite take_ge by lia. by exists v. }
    rewrite Hx, Ht in Hsome. apply subkeys_spec in Hsome. rewrite Hsub in Hsome.
    by apply not_elem_of_nil in Hsome.
  - rewrite lookup_delete_ne by congruence. by apply Hpre.
Qed.

Lemma wf_absent_below (r : Reg) (h q : list string) :
  wf_reg r -> h <> [] -> r !! h = None -> under h q -> r !! q = None.
Proof.
  intros Hwf Hh Hr [t ->]. destruct (r !! (h ++ t)) as [v|] eqn:E; [|done].
  exfalso. destruct t as [|x t]; [rewrite app_nil_r in E; congruence|].
  destruct (Hwf _ _ E) as (_ & _ & Hpre).
  specialize (Hpre (length h)). rewrite take_app_length in Hpre.
  destruct h; [done|]. rewrite length_app in Hpre. simpl in Hpre.
  destruct Hpre as [w Hw]; [lia|congruence].
Qed.

(* ================================================================== *)
(** * deleteRegKeyRecursive *)

Lemma erase_loop_spec (h : list string) (path : string) (g : string -> M unit)
    (env : Env) (B : nat) (l : list string) :
  NoDup l ->
  (forall c st1, c ∈ l -> wf_reg (reg st1) ->
     (forall q v, reg st1 !! q = Some v -> length q < B) ->
     erase_post (h ++ [c]) path st1 (snd (g c env st1)) (fst (g c env st1))) ->
  forall st1, wf_reg (reg st1) -> (forall q v, reg st1 !! q = Some v -> length q < B) ->
  exists calls,
    log (snd (for_each l g env st1)) = log st1 ++ calls /\
    nircmd_cache (snd (for_each l g env st1)) = nircmd_cache st1 /\
    (forall q, reg (snd (for_each l g env st1)) !! q = reg st1 !! q \/
               (under h q /\ reg (snd (for_each l g env st1)) !! q = None)) /\
    wf_reg (reg (snd (for_each l g env st1))) /\
    Forall (fun ev => exists c, c ∈ l /\ under (h ++ [c]) (ev_key ev)) calls /\
    post_order calls /\ trace_ok (fst (for_each l g env st1)) calls /\
    (forall e, fst (for_each l g env st1) = Err e -> wrapped_with path e).
Proof.
  intros Hnd Hg. induction l as [|c l IH]; intros st1 Hwf HB; simpl.
  - exists []. rewrite app_nil_r. split; [done|]. split; [done|].
    split; [by left|]. split; [done|]. split; [constructor|].
    split; [by apply post_order_no_delete|]. split; [left; split; [done|constructor]|].
    intros e H. discriminate H.
  - inversion Hnd as [|? ? Hnotin Hnd']; subst.
    destruct (Hg c st1 ltac:(set_solver) Hwf HB)
      as (calls1 & Hlog1 & Hc1 & Hreg1 & Hwf1 & Hk1 & Hpo1 & Htr1 & Hw1).
    unfold bind. destruct (g c env st1) as [res1 st2] eqn:Eg. simpl in *.
    destruct res1 as [[]|e|e].
    + assert (HB2 : forall q v, reg st2 !! q = Some v -> length q < B).
      { intros q v Hq. destruct (Hreg1 q) as [Hs|[_ Hn]]; [|congruence].
        rewrite Hs in Hq. by apply (HB q v). }
      destruct (IH Hnd' (fun c' st' Hc' => Hg c' st' ltac:(set_solver)) st2 Hwf1 HB2)
        as (calls2 & Hlog2 & Hc2 & Hreg2 & Hwf2 & Hk2 & Hpo2 & Htr2 & Hw2).
      exists (calls1 ++ calls2). split; [by rewrite Hlog2, Hlog1, app_assoc|].
      split; [congruence|]. split.
      { intros q. destruct (Hreg2 q) as [H2|H2]; destruct (Hreg1 q) as [H1|H1].
        - left. congruence.
        - right. destruct H1 as [[t ->] H1]. split; [by exists ([c] ++ t); rewrite app_assoc|congruence].
        - by right.
        - by right. }
      split; [done|]. split.
      { apply Forall_app. split.
        - eapply Forall_impl; [exact Hk1|]. intros ev Hev. exists c. split; [set_solver|done].
        - eapply Forall_impl; [exact Hk2|]. intros ev (c' & Hc' & Hev). exists c'. split; [set_solver|done]. }
      split.
      { apply post_order_app; [done|done|].
        intros e1 e2 He1 He2 _ Hun.
        rewrite Forall_forall in Hk1, Hk2.
        destruct (Hk1 e1 He1) as [t1 Ht1]. destruct (Hk2 e2 He2) as (c' & Hc' & [t2 Ht2]).
        rewrite Ht1, Ht2 in Hun. destruct Hun as [t3 Ht3].
        rewrite <- !app_assoc in Ht3. apply app_inv_head in Ht3. simpl in Ht3.
        injection Ht3 as ->. done. }
      split.
      { destruct Htr1 as [[_ Hok1]|(e' & _ & _ & He' & _)]; [|discriminate He'].
        by apply trace_ok_app_ok. }
      done.
    + exists calls1. split; [done|]. split; [done|]. split.
      { intros q. destruct (Hreg1 q) as [H1|[[t ->] H1]]; [by left|].
        right. split; [by exists ([c] ++ t); rewrite app_assoc|done]. }
      split; [done|]. split.
      { eapply Forall_impl; [exact Hk1|]. intros ev Hev. exists c. split; [set_solver|done]. }
      done.
    + exists calls1. split; [done|]. split; [done|]. split.
      { intros q. destruct (Hreg1 q) as [H1|[[t ->] H1]]; [by left|].
        right. split; [by exists ([c] ++ t); rewrite app_assoc|done]. }
      split; [done|]. split.
      { eapply Forall_impl; [exact Hk1|]. intros ev Hev. exists c. split; [set_solver|done]. }
      split; [done|]. split; [|intros e' H; discriminate H].
      destruct Htr1 as [[H _]|(e' & _ & _ & He' & _)]; discriminate.
Qed.

Lemma erase_post_calls (h : list string) (path : string) (st : St) (calls : list Event)
    (res : Outcome unit) :
  wf_reg (reg st) ->
  Forall (fun ev => ev_key ev = h) calls ->
  Forall (fun ev => ev_op ev <> OpDeleteKey) calls ->
  trace_ok res calls -> (forall e, res = Err e -> wrapped_with path e) ->
  erase_post h path st (mkSt (reg st) (log st ++ calls) (nircmd_cache st)) res.
Proof.
  intros Hwf Hk Hop Htr Hw. exists calls. simpl.
  split; [done|]. split; [done|]. split; [by left|]. split; [done|]. split.
  { eapply Forall_impl; [exact Hk|]. intros ev ->. apply under_refl. }
  split; [by apply post_order_no_delete|]. done.
Qed.

Lemma tolerated_not_bad (ev : Event) : tolerated ev -> ~ bad ev.
Proof. intros Ht [_ Hn]. done. Qed.

Lemma is_enoent_errno (code : N) : is_enoent (Errno code) = true <-> code = ERROR_FILE_NOT_FOUND.
Proof. simpl. apply N.eqb_eq. Qed.

Lemma trace_ok_not_exit (e : error) (calls : list Event) : ~ trace_ok (Exit e) calls.
Proof. intros [[H _]|(? & ? & ? & H & _)]; discriminate H. Qed.

Lemma trace_ok_snoc_ok (calls : list Event) (ev : Event) :
  trace_ok (Ok tt) calls -> ~ bad ev -> trace_ok (Ok tt) (calls ++ [ev]).
Proof.
  intros [[_ H]|(? & ? & ? & Hc & _)] Hb; [|discriminate Hc].
  left. split; [done|]. apply Forall_app. by repeat constructor.
Qed.

Lemma trace_ok_snoc_err (calls : list Event) (ev : Event) (e : error) :
  trace_ok (Ok tt) calls -> bad ev -> ev_res ev = root_errno e ->
  trace_ok (Err e) (calls ++ [ev]).
Proof.
  intros [[_ H]|(? & ? & ? & Hc & _)] Hb Hr; [|discriminate Hc].
  right. exists e, calls, ev. done.
Qed.

Lemma erase_post_finish (h : list string) (path : string) (st st' : St) (res : Outcome unit)
    (names : list string) (pre calls del : list Event) :
  Forall (fun ev => ev_key ev = h /\ ev_op ev <> OpDeleteKey /\ ~ bad ev) pre ->
  Forall (fun ev => exists c, c ∈ names /\ under (h ++ [c]) (ev_key ev)) calls ->
  post_order calls ->
  Forall (fun ev => ev_key ev = h) del -> length del <= 1 ->
  log st' = log st ++ pre ++ calls ++ del ->
  nircmd_cache st' = nircmd_cache st ->
  (forall q, reg st' !! q = reg st !! q \/ (under h q /\ reg st' !! q = None)) ->
  wf_reg (reg st') ->
  trace_ok res (calls ++ del) -> (forall e, res = Err e -> wrapped_with path e) ->
  erase_post h path st st' res.
Proof.
  intros Hpre Hk Hpo Hdel Hl Hlog Hc Hreg Hwf Htr Hw.
  exists (pre ++ calls ++ del). repeat (split; [done|]).
  split.
  { apply Forall_app. split.
    - eapply Forall_impl; [exact Hpre|]. intros ev [-> _]. apply under_refl.
    - apply Forall_app. split.
      + eapply Forall_impl; [exact Hk|]. intros ev (c & _ & Hu).
        eapply under_trans; [|exact Hu]. by eexists.
      + eapply Forall_impl; [exact Hdel|]. intros ev ->. apply under_refl. }
  split.
  { apply post_order_app.
    - apply post_order_no_delete. eapply Forall_impl; [exact Hpre|]. naive_solver.
    - apply post_order_app; [done| |].
      + destruct del as [|ev [|]]; [|apply post_order_single|simpl in Hl; lia].
        intros i j ei ej Hi. done.
      + intros e1 e2 H1 H2 _ Hu.
        rewrite Forall_forall in Hk, Hdel.
        destruct (Hk _ H1) as (c & _ & Hu1). rewrite (Hdel _ H2) in Hu.
        pose proof (under_trans _ _ _ Hu1 Hu) as Hu2.
        apply under_length in Hu2. rewrite length_app in Hu2. simpl in Hu2. lia.
    - intros e1 e2 H1. rewrite Forall_forall in Hpre.
      destruct (Hpre _ H1) as (_ & Hop & _). done. }
  split; [|done].
  apply trace_ok_app_ok; [|done].
  eapply Forall_impl; [exact Hpre|]. naive_solver.
Qed.

Lemma erase_go_spec (n : nat) :
  forall (k : list string) (path : string) (env : Env) (st st' : St) (res : Outcome unit),
  0 < n -> wf_reg (reg st) ->
  (forall q v, reg st !! q = Some v -> length q < length (k ++ split_path path) + n) ->
  erase_go n k path env st = (res, st') ->
  erase_post (k ++ split_path path) path st st' res.
Proof.
  induction n as [|m IH]; intros k path env st st' res Hn Hwf HB E; [lia|].
  set (h := k ++ split_path path) in *.
  cbn [erase_go] in E.
  unfold bind, attempt, with_context, OpenKey, ReadSubKeyNames, DeleteKey, adapter_call in E.
  fold h in E.
  destruct (fault env OpOpenKey h) as [code|] eqn:Hf.
  { (* the open is rejected *)
    destruct (is_enoent (Errno code)) eqn:Henoent; unfold ret, fail in E; simplify_eq.
    - apply is_enoent_errno in Henoent. subst code.
      apply erase_post_calls; try done; try by repeat constructor.
      apply trace_ok_single_ok, tolerated_not_bad. split; [done|by left].
    - apply erase_post_calls; try done; try by repeat constructor.
      + apply trace_ok_single_err; [|done]. split; [done|].
        intros [Hc0 _]. injection Hc0 as ->. done.
      + intros e He. injection He as <-. do 3 eexists. split; [done|]. set_solver. }
  destruct (reg st !! h) as [v|] eqn:Hr.
  2:{ (* the key does not exist *)
    simpl in E. unfold ret in E. simplify_eq.
    apply erase_post_calls; try done; try by repeat constructor.
    apply trace_ok_single_ok, tolerated_not_bad. split; [done|by left]. }
  simpl in E.
  destruct (fault env OpReadSubKeyNames h) as [code|] eqn:Hf2.
  { (* reading the subkeys is rejected *)
    simpl in E. simplify_eq. rewrite <- app_assoc.
    apply erase_post_calls; try done; try by repeat constructor.
    - apply (trace_ok_app_ok [_] [_]); [repeat constructor; intros [Hb _]; done|].
      apply trace_ok_single_err; [|done]. split; [done|].
      intros [_ [Ho|Ho]]; discriminate Ho.
    - intros e He. injection He as <-. do 3 eexists. split; [done|]. set_solver. }
  rewrite Hr in E. simpl in E.
  set (names := subkeys (reg st) h) in *.
  set (st2 := {| reg := reg st; log := (log st ++ [mkEvent OpOpenKey h None]) ++
                 [mkEvent OpReadSubKeyNames h None]; nircmd_cache := nircmd_cache st |}) in *.
  set (g := fun subKeyName : string => with_context
              (Errorf "deleteRegKeyRecursive failed to delete subkey %q of path %q: %w"
                 [subKeyName; path]) (erase_go m h subKeyName)) in *.
  assert (Hnames : forall c, c ∈ names -> seg_ok c /\ 0 < m).
  { intros c Hc. apply subkeys_spec in Hc as [w Hw].
    destruct (Hwf _ _ Hw) as (_ & Hseg & _). apply Forall_app in Hseg as [_ Hseg].
    inversion Hseg; subst. split; [done|].
    apply HB in Hw. rewrite length_app in Hw. simpl in Hw. lia. }
  destruct (erase_loop_spec h path g env (length h + S m) names (subkeys_NoDup _ _))
    with (st1 := st2) as (calls & Hlog & Hc & Hreg & Hwf3 & Hk & Hpo & Htr & Hw).
  { intros c st1 Hc Hwf1 HB1. destruct (Hnames c Hc) as [Hseg Hm].
    unfold g, with_context.
    destruct (erase_go m h c env st1) as [r1 st1'] eqn:Ec.
    apply IH in Ec; [|done|done|].
    2:{ intros q w Hq. apply HB1 in Hq. rewrite length_app, split_path_seg by done.
        simpl. lia. }
    rewrite split_path_seg in Ec by done.
    destruct Ec as (cl & Hl1 & Hc1 & Hr1 & Hw1 & Hk1 & Hp1 & Ht1 & He1).
    exists cl. destruct r1 as [[]|e|e]; simpl; repeat (split; [done|]).
    - intros e H. discriminate H.
    - split; [by apply trace_ok_wrap|]. intros e' He'. injection He' as <-.
      do 3 eexists. split; [done|]. set_solver.
    - intros e' H. discriminate H. }
  { done. }
  { intros q w Hq. by apply (HB q w). }
  change (for_each names _ env st2) with (for_each names g env st2) in E.
  destruct (for_each names g env st2) as [rl st3] eqn:El. simpl in *.
  pose (pre := [mkEvent OpOpenKey h None; mkEvent OpReadSubKeyNames h None]).
  assert (Hpre : Forall (fun ev => ev_key ev = h /\ ev_op ev <> OpDeleteKey /\ ~ bad ev) pre).
  { repeat constructor; simpl; try done; intros [Hb _]; done. }
  assert (Hreg3 : forall q, reg st3 !! q = reg st !! q \/ (under h q /\ reg st3 !! q = None))
    by done.
  destruct rl as [[]|e|e].
  2:{ simplify_eq.
      eapply (erase_post_finish h path st _ _ names pre calls []); try done; try (simpl; lia).
      - simpl. rewrite Hlog; unfold pre; rewrite <- !app_assoc, app_nil_r. reflexivity.
      - by rewrite app_nil_r. }
  2:{ exfalso. by apply (trace_ok_not_exit e calls). }
  destruct (fault env OpDeleteKey h) as [code|] eqn:Hf3.
  { (* the delete is rejected *)
    simpl in E. destruct (N.eqb_spec code ERROR_FILE_NOT_FOUND) as [->|Hne].
    - simpl in E. unfold ret in E. simplify_eq.
      eapply (erase_post_finish h path st _ _ names pre calls [mkEvent OpDeleteKey h (Some ERROR_FILE_NOT_FOUND)]);
      try done; try (simpl; lia); try (by repeat constructor).
        + simpl. rewrite Hlog; unfold pre; rewrite <- !app_assoc. reflexivity.
      + apply trace_ok_snoc_ok; [done|]. apply tolerated_not_bad. split; [done|by right].
    - unfold fail in E. simplify_eq.
      eapply (erase_post_finish h path st _ _ names pre calls [mkEvent OpDeleteKey h (Some code)]);
      try done; try (simpl; lia); try (by repeat constructor).
        + simpl. rewrite Hlog; unfold pre; rewrite <- !app_assoc. reflexivity.
      + apply trace_ok_snoc_err; [done| |done]. split; [done|].
        intros [Hc0 _]. injection Hc0 as ->. done.
      + intros e He. injection He as <-. do 3 eexists. split; [done|]. set_solver. }
  destruct (reg st3 !! h) as [v3|] eqn:Hr3.
  2:{ (* the key has already gone *)
    simpl in E. unfold ret in E. simplify_eq.
    eapply (erase_post_finish h path st _ _ names pre calls [mkEvent OpDeleteKey h (Some ERROR_FILE_NOT_FOUND)]);
      try done; try (simpl; lia); try (by repeat constructor).
    + simpl. rewrite Hlog; unfold pre; rewrite <- !app_assoc. reflexivity.
    + apply trace_ok_snoc_ok; [done|]. apply tolerated_not_bad. split; [done|by right]. }
  destruct (subkeys (reg st3) h) as [|c0 cs] eqn:Hs3.
  - (* the key is deleted *)
    simpl in E. unfold ret in E. simplify_eq.
    eapply (erase_post_finish h path st _ _ names pre calls [mkEvent OpDeleteKey h None]);
      try done; try (simpl; lia); try (by repeat constructor).
    + simpl. rewrite Hlog; unfold pre; rewrite <- !app_assoc. reflexivity.
    + intros q. simpl. destruct (decide (q = h)) as [->|Hne].
      * right. split; [apply under_refl|]. apply lookup_delete_eq.
      * rewrite lookup_delete_ne by done. apply Hreg3.
    + simpl. by apply wf_delete.
    + apply trace_ok_snoc_ok; [done|]. intros [Hb _]. done.
  - (* subkeys reappeared: access denied *)
    simpl in E. unfold fail in E. simplify_eq.
    eapply (erase_post_finish h path st _ _ names pre calls [mkEvent OpDeleteKey h (Some ERROR_ACCESS_DENIED)]);
      try done; try (simpl; lia); try (by repeat constructor).
    + simpl. rewrite Hlog; unfold pre; rewrite <- !app_assoc. reflexivity.
    + apply trace_ok_snoc_err; [done| |done]. split; [done|].
      intros [Hc0 _]. discriminate Hc0.
    + intros e He. injection He as <-. do 3 eexists. split; [done|]. set_solver.
Qed.

Lemma wf_child_below (r : Reg) (h : list string) (c : string) (t : list string) :
  wf_reg r -> is_Some (r !! (h ++ c :: t)) -> is_Some (r !! (h ++ [c])).
Proof.
  intros Hwf [v Hv]. destruct t as [|x t]. { exists v. exact Hv. }
  destruct (Hwf _ _ Hv) as (_ & _ & Hpre).
  specialize (Hpre (length h + 1)). rewrite length_app in Hpre. simpl in Hpre.
  replace (take (length h + 1) (h ++ c :: x :: t)) with (h ++ [c]) in Hpre.
  - apply Hpre. lia.
  - rewrite take_app, take_ge by lia.
    replace (length h + 1 - length h) with 1 by lia. done.
Qed.

Lemma erase_loop_complete (h : list string) (path : string) (g : string -> M unit)
    (env : Env) (B : nat) (l : list string) :
  (forall c st1, c ∈ l -> wf_reg (reg st1) ->
     (forall q v, reg st1 !! q = Some v -> length q < B) ->
     fst (g c env st1) = Ok tt /\
     (forall q, under (h ++ [c]) q -> reg (snd (g c env st1)) !! q = None) /\
     erase_post (h ++ [c]) path st1 (snd (g c env st1)) (fst (g c env st1))) ->
  forall st1, wf_reg (reg st1) -> (forall q v, reg st1 !! q = Some v -> length q < B) ->
  fst (for_each l g env st1) = Ok tt /\
  (forall c q, c ∈ l -> under (h ++ [c]) q -> reg (snd (for_each l g env st1)) !! q = None) /\
  (forall q, reg (snd (for_each l g env st1)) !! q = reg st1 !! q \/
             reg (snd (for_each l g env st1)) !! q = None) /\
  wf_reg (reg (snd (for_each l g env st1))).
Proof.
  intros Hg. induction l as [|c l IH]; intros st1 Hwf HB; simpl.
  - split; [done|]. split; [intros c q Hc; set_solver|]. split; [by left|done].
  - destruct (Hg c st1 ltac:(set_solver) Hwf HB)
      as (Hok & Hcl & calls & _ & _ & Hreg & Hwf2 & _).
    unfold bind. destruct (g c env st1) as [r1 st2] eqn:Eg. simpl in *. subst r1.
    assert (HB2 : forall q v, reg st2 !! q = Some v -> length q < B).
    { intros q v Hq. destruct (Hreg q) as [Hs|[_ Hn]]; [|congruence].
      rewrite Hs in Hq. by apply (HB q v). }
    destruct (IH (fun c' st' Hc' => Hg c' st' ltac:(set_solver)) st2 Hwf2 HB2)
      as (Hok3 & Hcl3 & Hsh3 & Hwf3).
    split; [done|]. split.
    { intros c' q Hc' Hq. apply elem_of_cons in Hc' as [->|Hc'].
      - destruct (Hsh3 q) as [->|]; [by apply Hcl|done].
      - by apply (Hcl3 c'). }
    split; [|done].
    intros q. destruct (Hsh3 q) as [->|]; [|by right].
    destruct (Hreg q) as [|[_ ?]]; [by left|by right].
Qed.

Lemma split_path_app_nonempty (k : list string) (path : string) : k ++ split_path path <> [].
Proof. intros Hh. apply app_eq_nil in Hh as [_ Hh]. by apply split_path_nonempty in Hh. Qed.

Lemma erase_go_complete (n : nat) :
  forall (k : list string) (path : string) (env : Env) (st : St),
  (forall o q, fault env o q = None) -> 0 < n -> wf_reg (reg st) ->
  (forall q v, reg st !! q = Some v -> length q < length (k ++ split_path path) + n) ->
  fst (erase_go n k path env st) = Ok tt /\
  forall q, under (k ++ split_path path) q -> reg (snd (erase_go n k path env st)) !! q = None.
Proof.
  induction n as [|m IH]; intros k path env st Hnf Hn Hwf HB; [lia|].
  pose proof (split_path_app_nonempty k path) as Hh0.
  set (h := k ++ split_path path) in *.
  cbn [erase_go].
  unfold bind, attempt, with_context, OpenKey, ReadSubKeyNames, DeleteKey, adapter_call.
  fold h. rewrite !Hnf.
  destruct (reg st !! h) as [v|] eqn:Hr.
  2:{ simpl. split; [done|]. intros q Hq. by eapply wf_absent_below. }
  simpl. rewrite Hr. simpl. rewrite !Hnf. simpl.
  set (names := subkeys (reg st) h).
  set (st2 := {| reg := reg st; log := (log st ++ [mkEvent OpOpenKey h None]) ++
                 [mkEvent OpReadSubKeyNames h None]; nircmd_cache := nircmd_cache st |}).
  set (g := fun subKeyName : string => with_context
              (Errorf "deleteRegKeyRecursive failed to delete subkey %q of path %q: %w"
                 [subKeyName; path]) (erase_go m h subKeyName)).
  change (for_each names _ env st2) with (for_each names g env st2).
  assert (Hm : 0 < m \/ names = []).
  { destruct names as [|c cs] eqn:Hnm; [by right|left].
    assert (Hc : c ∈ subkeys (reg st) h) by (fold names; rewrite Hnm; set_solver).
    apply subkeys_spec in Hc as [w Hw]. apply HB in Hw.
    rewrite length_app in Hw. simpl in Hw. lia. }
  destruct (erase_loop_complete h path g env (length h + S m) names) with (st1 := st2)
    as (Hok3 & Hcl3 & Hsh3 & Hwf3); [|done|by intros q w Hq; apply (HB q w)|].
  { intros c st1 Hc Hwf1 HB1.
    assert (Hseg : seg_ok c).
    { apply subkeys_spec in Hc as [w Hw].
      destruct (Hwf _ _ Hw) as (_ & Hseg & _). apply Forall_app in Hseg as [_ Hseg].
      by inversion Hseg. }
    assert (Hm' : 0 < m) by (destruct Hm as [|Hm]; [done|]; rewrite Hm in Hc; set_solver).
    assert (HB1' : forall q w, reg st1 !! q = Some w ->
                     length q < length (h ++ split_path c) + m).
    { intros q w Hq. apply HB1 in Hq. rewrite length_app, split_path_seg by done.
      simpl. lia. }
    destruct (IH h c env st1 Hnf Hm' Hwf1 HB1') as [Hok Hcl].
    pose proof (erase_go_spec m h c env st1 _ _ Hm' Hwf1 HB1' (surjective_pairing _)) as Hpost.
    rewrite split_path_seg in Hcl, Hpost by done.
    unfold g, with_context.
    destruct (erase_go m h c env st1) as [r1 st1'] eqn:Ec. simpl in *. subst r1.
    split; [done|]. split; [done|].
    destruct Hpost as (cl & H1 & H2 & H3 & H4 & H5 & H6 & H7 & _). exists cl. simpl.
    do 7 (split; [done|]). intros e He. discriminate He. }
  destruct (for_each names g env st2) as [rl st3] eqn:El. simpl in *. subst rl.
  assert (Hclear : forall q, under h q -> q <> h -> reg st3 !! q = None).
  { intros q [t ->] Hne. destruct t as [|c t]; [by rewrite app_nil_r in Hne|].
    destruct (reg st3 !! (h ++ c :: t)) as [w|] eqn:Hq; [|done].
    destruct (Hsh3 (h ++ c :: t)) as [Hs|Hs]; [|congruence].
    assert (Hc : c ∈ names).
    { apply subkeys_spec. apply (wf_child_below _ _ _ t Hwf). rewrite <- Hs, Hq. by eexists. }
    rewrite <- Hq. apply (Hcl3 c); [done|]. exists t. by rewrite <- app_assoc. }
  destruct (reg st3 !! h) as [v3|] eqn:Hr3.
  2:{ simpl. split; [done|]. intros q Hq.
      destruct (decide (q = h)) as [->|Hne]; [done|by apply Hclear]. }
  destruct (subkeys (reg st3) h) as [|c0 cs] eqn:Hs3.
  2:{ exfalso. assert (Hc0 : c0 ∈ subkeys (reg st3) h) by (rewrite Hs3; set_solver).
      apply subkeys_spec in Hc0 as [w Hw].
      rewrite (Hclear (h ++ [c0])) in Hw; [done| |].
      - by eexists.
      - intros Heq. apply (f_equal length) in Heq. rewrite length_app in Heq. simpl in Heq. lia. }
  simpl. split; [done|]. intros q Hq.
  destruct (decide (q = h)) as [->|Hne]; [apply lookup_delete_eq|].
  rewrite lookup_delete_ne by done. by apply Hclear.
Qed.

Lemma wf_reg_check_sound (r : Reg) : wf_reg_check r = true -> wf_reg r.
Proof.
  unfold wf_reg_check. rewrite bool_decide_eq_true. intros H q v Hq.
  destruct (H q v Hq) as (Hne & Hseg & Hpre). split; [done|]. split; [done|].
  intros i Hi. rewrite Forall_forall in Hpre. apply Hpre, elem_of_seq. lia.
Qed.

Lemma max_key_len_bound (r : Reg) (q : list string) (v : gmap string RegValue) :
  r !! q = Some v -> length q <= max_key_len r.
Proof.
  intros Hq. unfold max_key_len.
  pose proof (proj1 (list_max_le (map (fun kv => length kv.1) (map_to_list r))
                       (list_max (map (fun kv => length kv.1) (map_to_list r)))) (le_n _)) as H.
  rewrite Forall_forall in H. apply H, list_elem_of_In, in_map_iff. exists (q, v). split; [done|].
  apply list_elem_of_In, elem_of_map_to_list. done.
Qed.

Lemma deleteRegKeyRecursive_post (k : list string) (path : string) (env : Env) (st st' : St)
    (res : Outcome unit) :
  wf_reg (reg st) -> deleteRegKeyRecursive k path env st = (res, st') ->
  erase_post (k ++ split_path path) path st st' res.
Proof.
  intros Hwf E. unfold deleteRegKeyRecursive in E.
  eapply (erase_go_spec (S (max_key_len (reg st)))); [lia|done| |exact E].
  intros q v Hq. apply max_key_len_bound in Hq.
  pose proof (split_path_nonempty path). destruct (split_path path); [done|].
  rewrite length_app. simpl. lia.
Qed.

Lemma deleteRegKeyRecursive_complete (k : list string) (path : string) (env : Env) (st : St) :
  (forall o q, fault env o q = None) -> wf_reg (reg st) ->
  fst (deleteRegKeyRecursive k path env st) = Ok tt /\
  forall q, under (k ++ split_path path) q ->
    reg (snd (deleteRegKeyRecursive k path env st)) !! q = None.
Proof.
  intros Hnf Hwf. unfold deleteRegKeyRecursive.
  apply erase_go_complete; [done|lia|done|].
  intros q v Hq. apply max_key_len_bound in Hq. rewrite length_app. lia.
Qed.

(** ** C6 *)

(** C6: [deleteRegKeyRecursive] erases the subtree of [path] in post-order.
    All of its registry calls address [path] or keys below it; after the
    [DeleteKey] of a key, no later call addresses that key or anything below
    it, so descendants are deleted before their ancestors. On failure the run
    stops at once: the failing call is the last call made, every earlier call
    either succeeded or was a tolerated not-found, the registry error is at the
    root of the returned error, and the returned error is wrapped with [path].
    The only registry change is the removal of keys below [path]. Without
    adapter faults the run succeeds and removes exactly the subtree of [path]. *)
Theorem deleteRegKeyRecursive_post_order (k : list string) (path : string) (env : Env)
    (st st' : St) (res : Outcome unit) :
  wf_reg (reg st) -> deleteRegKeyRecursive k path env st = (res, st') ->
  exists calls,
    log st' = log st ++ calls /\
    Forall (fun ev => under (k ++ split_path path) (ev_key ev)) calls /\
    post_order calls /\
    trace_ok res calls /\
    (forall e, res = Err e -> wrapped_with path e) /\
    (forall q, reg st' !! q = reg st !! q \/
               (under (k ++ split_path path) q /\ reg st' !! q = None)) /\
    ((forall o q, fault env o q = None) ->
     res = Ok tt /\
     forall q, reg st' !! q = if under_b (k ++ split_path path) q then None else reg st !! q).
Proof.
  intros Hwf E.
  destruct (deleteRegKeyRecursive_post k path env st st' res Hwf E)
    as (calls & Hlog & _ & Hreg & _ & Hk & Hpo & Htr & Hw).
  exists calls. do 6 (split; [done|]).
  intros Hnf. destruct (deleteRegKeyRecursive_complete k path env st Hnf Hwf) as [Hok Hcl].
  rewrite E in Hok, Hcl. simpl in Hok, Hcl. split; [done|].
  intros q. destruct (under_b (k ++ split_path path) q) eqn:Hu.
  - apply Hcl, under_b_spec, Hu.
  - destruct (Hreg q) as [Hq|[Hq _]]; [done|].
    apply under_b_spec in Hq. congruence.
Qed.

Lemma deleteRegKeyRecursive_post_order_witness :
  exists calls,
    log (snd (deleteRegKeyRecursive CURRENT_USER "a" env_menu st_sample)) =
      log st_sample ++ calls /\
    Forall (fun ev => under (CURRENT_USER ++ split_path "a") (ev_key ev)) calls /\
    post_order calls /\
    trace_ok (fst (deleteRegKeyRecursive CURRENT_USER "a" env_menu st_sample)) calls /\
    (forall e, fst (deleteRegKeyRecursive CURRENT_USER "a" env_menu st_sample) = Err e ->
               wrapped_with "a" e) /\
    (forall q, reg (snd (deleteRegKeyRecursive CURRENT_USER "a" env_menu st_sample)) !! q =
                 reg st_sample !! q \/
               (under (CURRENT_USER ++ split_path "a") q /\
                reg (snd (deleteRegKeyRecursive CURRENT_USER "a" env_menu st_sample)) !! q = None)) /\
    ((forall o q, fault env_menu o q = None) ->
     fst (deleteRegKeyRecursive CURRENT_USER "a" env_menu st_sample) = Ok tt /\
     forall q, reg (snd (deleteRegKeyRecursive CURRENT_USER "a" env_menu st_sample)) !! q =
               if under_b (CURRENT_USER ++ split_path "a") q then None else reg st_sample !! q).
Proof.
  apply (deleteRegKeyRecursive_post_order CURRENT_USER "a" env_menu st_sample
           (snd (deleteRegKeyRecursive CURRENT_USER "a" env_menu st_sample))
           (fst (deleteRegKeyRecursive CURRENT_USER "a" env_menu st_sample))).
  - apply wf_reg_check_sound. vm_compute. reflexivity.
  - apply surjective_pairing.
Defined.

(** ** C7 *)

Lemma not_bad_iff (ev : Event) : ~ bad ev <-> ev_res ev = None \/ tolerated ev.
Proof.
  unfold bad, tolerated. destruct ev as [op q [n|]]; simpl; [|naive_solver].
  split; [|naive_solver].
  intros H. right. destruct (decide (n = ERROR_FILE_NOT_FOUND)) as [->|Hn].
  - split; [done|].
    destruct op; first [by left | by right | exfalso; apply H; split; [done|];
                                              intros [_ [Ho|Ho]]; discriminate Ho].
  - exfalso. apply H. split; [done|]. intros [Hc _]. injection Hc as ->. done.
Qed.

(** C7: erasing a path that does not exist succeeds and leaves the registry
    as it was (the single call made is the open that reports not-found).
    In general a run succeeds exactly when every registry call it made either
    succeeded or reported not-found on an [OpenKey] or on a [DeleteKey]: these
    two not-found answers, at each level of the recursion, are the only
    tolerated failures, and a not-found on the final delete of [path] itself
    counts as success. *)
Theorem deleteRegKeyRecursive_not_found (k : list string) (path : string) (env : Env)
    (st st' : St) (res : Outcome unit) :
  wf_reg (reg st) -> deleteRegKeyRecursive k path env st = (res, st') ->
  (reg st !! (k ++ split_path path) = None -> fault env OpOpenKey (k ++ split_path path) = None ->
   res = Ok tt /\ reg st' = reg st /\
   log st' = log st ++ [mkEvent OpOpenKey (k ++ split_path path) (Some ERROR_FILE_NOT_FOUND)]) /\
  exists calls,
    log st' = log st ++ calls /\
    (res = Ok tt <-> Forall (fun ev => ev_res ev = None \/ tolerated ev) calls).
Proof.
  intros Hwf E. split.
  - intros Hr Hf. unfold deleteRegKeyRecursive in E. cbn [erase_go] in E.
    unfold bind, attempt, OpenKey, adapter_call in E. rewrite Hf, Hr in E.
    simpl in E. injection E as <- <-. done.
  - destruct (deleteRegKeyRecursive_post k path env st st' res Hwf E)
      as (calls & Hlog & _ & _ & _ & _ & _ & Htr & _).
    exists calls. split; [done|]. split.
    + intros ->. destruct Htr as [[_ Hok]|(? & ? & ? & He & _)]; [|discriminate He].
      eapply Forall_impl; [exact Hok|]. intros ev. apply not_bad_iff.
    + intros Hall. destruct Htr as [[-> _]|(e & calls' & ev & -> & -> & Hb & _)]; [done|].
      exfalso. apply Forall_app in Hall as [_ Hall]. inversion Hall; subst.
      by apply not_bad_iff in Hb.
Qed.

Lemma deleteRegKeyRecursive_not_found_witness :
  (reg st_sample !! (CURRENT_USER ++ split_path "a") = None ->
   fault env_delete_race OpOpenKey (CURRENT_USER ++ split_path "a") = None ->
   fst (deleteRegKeyRecursive CURRENT_USER "a" env_delete_race st_sample) = Ok tt /\
   reg (snd (deleteRegKeyRecursive CURRENT_USER "a" env_delete_race st_sample)) = reg st_sample /\
   log (snd (deleteRegKeyRecursive CURRENT_USER "a" env_delete_race st_sample)) =
     log st_sample ++
     [mkEvent OpOpenKey (CURRENT_USER ++ split_path "a") (Some ERROR_FILE_NOT_FOUND)]) /\
  exists calls,
    log (snd (deleteRegKeyRecursive CURRENT_USER "a" env_delete_race st_sample)) =
      log st_sample ++ calls /\
    (fst (deleteRegKeyRecursive CURRENT_USER "a" env_delete_race st_sample) = Ok tt <->
     Forall (fun ev => ev_res ev = None \/ tolerated ev) calls).
Proof.
  apply (deleteRegKeyRecursive_not_found CURRENT_USER "a" env_delete_race st_sample
           (snd (deleteRegKeyRecursive CURRENT_USER "a" env_delete_race st_sample))
           (fst (deleteRegKeyRecursive CURRENT_USER "a" env_delete_race st_sample))).
  - apply wf_reg_check_sound. vm_compute. reflexivity.
  - apply surjective_pairing.
Defined.

(* ================================================================== *)
(** * Fault-free runs, key by key *)

Lemma ens_idem (x : Slot) : ens (ens x) = ens x.
Proof. by destruct x. Qed.

Lemma ensure_key_lookup (k : list string) (r : Reg) (q : list string) :
  ensure_key k r !! q = if decide (q = k) then ens (r !! q) else r !! q.
Proof.
  unfold ensure_key. destruct (r !! k) as [m|] eqn:E; destruct (decide (q = k)) as [->|Hne].
  - by rewrite E.
  - done.
  - by rewrite lookup_insert_eq, E.
  - by rewrite lookup_insert_ne by congruence.
Qed.

Lemma under_snoc_length (q pre rest : list string) (s : string) :
  under q (pre ++ s :: rest) -> length q = S (length pre) -> q = pre ++ [s].
Proof.
  intros [t Ht] Hl.
  assert (Hq : take (length q) (q ++ t) = take (length q) (pre ++ s :: rest)) by congruence.
  rewrite take_app_length in Hq. rewrite Hq, Hl, take_app, take_ge by lia.
  replace (S (length pre) - length pre) with 1 by lia. done.
Qed.

Lemma ensure_path_lookup (rest : list string) :
  forall (pre : list string) (r : Reg) (q : list string),
  ensure_path pre rest r !! q =
    if decide (length pre < length q /\ under q (pre ++ rest)) then ens (r !! q) else r !! q.
Proof.
  induction rest as [|s rest IH]; intros pre r q; simpl.
  - rewrite app_nil_r. destruct (decide _) as [[Hl Hu]|]; [|done].
    apply under_length in Hu. lia.
  - rewrite IH, !ensure_key_lookup, <- app_assoc. simpl.
    rewrite length_app. simpl.
    destruct (decide (q = pre ++ [s])) as [->|Hne].
    + rewrite ens_idem. rewrite length_app. simpl.
      destruct (decide (length pre + 1 < length pre + 1 /\ _)) as [[]|]; [lia|].
      destruct (decide (length pre < length pre + 1 /\ under (pre ++ [s]) (pre ++ s :: rest)))
        as [|Hn]; [done|].
      exfalso. apply Hn. split; [lia|]. exists rest. by rewrite <- app_assoc.
    + destruct (decide (length pre + 1 < length q /\ under q (pre ++ s :: rest)))
        as [[Hl Hu]|Hn1];
        destruct (decide (length pre < length q /\ under q (pre ++ s :: rest)))
        as [[Hl' Hu']|Hn2]; try done.
      * exfalso. apply Hn2. split; [lia|done].
      * exfalso. destruct (decide (length q = S (length pre))) as [Hq|Hq].
        -- apply Hne. by apply (under_snoc_length q pre rest s).
        -- apply Hn1. split; [lia|done].
Qed.

Lemma on_path_iff (q h : list string) : on_path q h <-> 0 < length q /\ under q h.
Proof.
  unfold on_path. split; intros [H1 H2]; split; try done.
  - destruct q; [done|simpl; lia].
  - intros ->. simpl in H1. lia.
Qed.

Lemma CreateKey_lookup (h : list string) (r : Reg) (q : list string) :
  ensure_path [] h r !! q = if decide (on_path q h) then ens (r !! q) else r !! q.
Proof.
  rewrite ensure_path_lookup. simpl.
  destruct (decide (0 < length q /\ under q h)) as [H|H];
    destruct (decide (on_path q h)) as [H'|H']; try done.
  - exfalso. apply H', on_path_iff, H.
  - exfalso. apply H, on_path_iff, H'.
Qed.

Lemma wf_ensure_path (h : list string) (r : Reg) :
  wf_reg r -> Forall seg_ok h -> wf_reg (ensure_path [] h r).
Proof.
  intros Hwf Hseg q v Hq. rewrite CreateKey_lookup in Hq.
  destruct (decide (on_path q h)) as [[Hne [t ->]]|Hn].
  - split; [done|]. apply Forall_app in Hseg as [Hseg _]. split; [done|].
    intros i Hi. rewrite CreateKey_lookup.
    destruct (decide (on_path (take i q) (q ++ t))) as [_|Hn]; [by destruct (r !! take i q)|].
    exfalso. apply Hn. split.
    + intros Ht. apply (f_equal length) in Ht. rewrite length_take in Ht. simpl in Ht. lia.
    + exists (drop i q ++ t). by rewrite app_assoc, take_drop.
  - destruct (Hwf q v Hq) as (Hne & Hs & Hpre). split; [done|]. split; [done|].
    intros i Hi. rewrite CreateKey_lookup. destruct (Hpre i Hi) as [w Hw]. rewrite Hw.
    destruct (decide _); by eexists.
Qed.

Lemma wf_insert_existing (h : list string) (v : gmap string RegValue) (r : Reg) :
  wf_reg r -> is_Some (r !! h) -> wf_reg (<[h := v]> r).
Proof.
  intros Hwf [w0 Hh] q v' Hq.
  assert (Hsome : forall x, is_Some (r !! x) -> is_Some (<[h := v]> r !! x)).
  { intros x [w Hw]. destruct (decide (x = h)) as [->|Hne].
    - rewrite lookup_insert_eq. by eexists.
    - rewrite lookup_insert_ne by congruence. by eexists. }
  destruct (decide (q = h)) as [->|Hne].
  - destruct (Hwf h w0 Hh) as (H1 & H2 & H3). do 2 (split; [done|]).
    intros i Hi. by apply Hsome, H3.
  - rewrite lookup_insert_ne in Hq by congruence.
    destruct (Hwf q v' Hq) as (H1 & H2 & H3). do 2 (split; [done|]).
    intros i Hi. by apply Hsome, H3.
Qed.

(* ================================================================== *)
(** * Runs of createContextMenu and run *)

(** [CommandString] reads only the nircmd.exe cache and leaves the
    registry and the call log alone. *)
Lemma CommandString_state (c : ContextMenu) (dir : string) (env : Env) (st : St) :
  CommandString c dir env st =
  (fst (CommandString c dir env (mkSt ∅ [] (nircmd_cache st))),
   mkSt (reg st) (log st) (nircmd_cache (snd (CommandString c dir env (mkSt ∅ [] (nircmd_cache st)))))).
Proof.
  unfold CommandString, bind, attempt, findNircmd, ret, fatal. simpl.
  destruct (Admin c); [|by destruct st].
  destruct (nircmd_cache st) as [|ch s] eqn:Ec; simpl.
  - destruct (nircmd_search env) as [p []]; done.
  - destruct st; simpl in *; by subst.
Qed.

Lemma createContextMenu_folder_loop (parent id dir : string)
    (items : list (string * ContextMenu)) (env : Env) (st : St) :
  (fix loop (l : list (string * ContextMenu)) : M unit :=
     match l with
     | [] => ret tt
     | (subID, subItem) :: rest =>
         let* _ := with_context (Errorf "failed to create context menu ID %q: %w" [subID])
                     (createContextMenu (parent ++ "\" ++ id ++ "\shell") subID subItem dir) in
         loop rest
     end) items env st =
  for_each items (fun '(subID, subItem) =>
    with_context (Errorf "failed to create context menu ID %q: %w" [subID])
      (createContextMenu (parent ++ "\" ++ id ++ "\shell") subID subItem dir)) env st.
Proof.
  revert st. induction items as [|[subID subItem] rest IH]; intros st; [done|].
  simpl. unfold bind. destruct (with_context _ _ env st) as [[[]|e|e] st1]; [apply IH|done|done].
Qed.

Section FaultFree.
Context (env : Env).
Hypothesis Hnf : forall o q, fault env o q = None.

Lemma runs_ret {A} (F : Eff) (a : A) (c : string) : runs_from env F (ret a) c (Ok a) c F.
Proof. intros r0 st Hwf Hc Hr. done. Qed.

Lemma runs_bind {A B} (F0 F1 F2 : Eff) (m : M A) (k : A -> M B) (c c1 c2 : string)
    (a : A) (o : Outcome B) :
  runs_from env F0 m c (Ok a) c1 F1 -> runs_from env F1 (k a) c1 o c2 F2 ->
  runs_from env F0 (bind m k) c o c2 F2.
Proof.
  intros H1 H2 r0 st Hwf Hc Hr.
  destruct (H1 r0 st Hwf Hc Hr) as (Ho & Hc1 & Hwf1 & Hr1).
  unfold bind. destruct (m env st) as [o1 st1]. simpl in *. subst o1. by apply H2.
Qed.

Lemma runs_bind_err {A B} (F0 F1 : Eff) (m : M A) (k : A -> M B) (c c1 : string) (e : error) :
  runs_from env F0 m c (Err e) c1 F1 -> runs_from env F0 (bind m k) c (Err e) c1 F1.
Proof.
  intros H1 r0 st Hwf Hc Hr. destruct (H1 r0 st Hwf Hc Hr) as (Ho & Hc1 & Hwf1 & Hr1).
  unfold bind. destruct (m env st) as [o1 st1]. simpl in *. by subst o1.
Qed.

Lemma runs_bind_exit {A B} (F0 F1 : Eff) (m : M A) (k : A -> M B) (c c1 : string) (e : error) :
  runs_from env F0 m c (Exit e) c1 F1 -> runs_from env F0 (bind m k) c (Exit e) c1 F1.
Proof.
  intros H1 r0 st Hwf Hc Hr. destruct (H1 r0 st Hwf Hc Hr) as (Ho & Hc1 & Hwf1 & Hr1).
  unfold bind. destruct (m env st) as [o1 st1]. simpl in *. by subst o1.
Qed.

Lemma runs_with_context {A} (F0 F1 : Eff) (w : error -> error) (m : M A) (c c1 : string)
    (o : Outcome A) :
  runs_from env F0 m c o c1 F1 -> runs_from env F0 (with_context w m) c (wrap_out w o) c1 F1.
Proof.
  intros H1 r0 st Hwf Hc Hr. destruct (H1 r0 st Hwf Hc Hr) as (Ho & Hc1 & Hwf1 & Hr1).
  unfold with_context. destruct (m env st) as [o1 st1]. simpl in *. subst o1.
  by destruct o.
Qed.

Lemma runs_erase (F0 : Eff) (k : list string) (path : string) (c : string) :
  runs_from env F0 (deleteRegKeyRecursive k path) c (Ok tt) c
    (eff_erase (k ++ split_path path) F0).
Proof.
  intros r0 st Hwf Hc Hr.
  destruct (deleteRegKeyRecursive_complete k path env st Hnf Hwf) as [Hok Hcl].
  destruct (deleteRegKeyRecursive_post k path env st _ _ Hwf (surjective_pairing _))
    as (calls & _ & Hc' & Hreg & Hwf' & _).
  split; [done|]. split; [congruence|]. split; [done|].
  intros q. unfold eff_erase. destruct (decide _) as [Hu|Hu]; [by apply Hcl|].
  destruct (Hreg q) as [->|[? _]]; [done|contradiction].
Qed.

Lemma runs_create (F0 : Eff) (path : string) (c : string) :
  runs_from env F0 (CreateKey CURRENT_USER path) c (Ok (split_path path)) c
    (eff_create (split_path path) F0).
Proof.
  intros r0 st Hwf Hc Hr. unfold CreateKey, adapter_call. rewrite Hnf. simpl.
  split; [done|]. split; [done|]. split.
  - apply wf_ensure_path; [done|apply split_path_seg_ok].
  - intros q. rewrite CreateKey_lookup. unfold eff_create. by rewrite Hr.
Qed.

Lemma runs_set (F0 : Eff) (h : list string) (name : string) (v : RegValue) (c : string)
    (vals : gmap string RegValue) :
  (forall x, F0 h x = Some vals) ->
  runs_from env F0 (set_value h name v) c (Ok tt) c (eff_set h name v F0).
Proof.
  intros HF r0 st Hwf Hc Hr. unfold set_value, adapter_call. rewrite Hnf, Hr, HF. simpl.
  split; [done|]. split; [done|]. split.
  - apply wf_insert_existing; [done|]. rewrite Hr, HF. by eexists.
  - intros q. unfold eff_set. destruct (decide (q = h)) as [->|Hne].
    + by rewrite lookup_insert_eq, HF.
    + rewrite lookup_insert_ne by congruence. apply Hr.
Qed.

Lemma runs_CommandString (F0 : Eff) (item : ContextMenu) (dir c : string) :
  runs_from env F0 (CommandString item dir) c
    (fst (CommandString item dir env (mkSt ∅ [] c)))
    (nircmd_cache (snd (CommandString item dir env (mkSt ∅ [] c)))) F0.
Proof.
  intros r0 st Hwf Hc Hr. rewrite CommandString_state, Hc. simpl. done.
Qed.

Lemma runs_with_context_ok {A} (F0 F1 : Eff) (w : error -> error) (m : M A) (c c1 : string)
    (a : A) :
  runs_from env F0 m c (Ok a) c1 F1 -> runs_from env F0 (with_context w m) c (Ok a) c1 F1.
Proof. apply (runs_with_context F0 F1 w m c c1 (Ok a)). Qed.

Lemma runs_ext {A} (F0 F1 : Eff) (m m' : M A) (c c1 : string) (o : Outcome A) :
  (forall st, m env st = m' env st) ->
  runs_from env F0 m c o c1 F1 -> runs_from env F0 m' c o c1 F1.
Proof. intros Heq H r0 st Hwf Hc Hr. rewrite <- Heq. by apply H. Qed.

Lemma runs_ex_bind {A B} (F0 F1 : Eff) (m : M A) (k : A -> M B) (c c1 : string) (a : A) :
  runs_from env F0 m c (Ok a) c1 F1 ->
  (exists o c2 F2, (forall q, slot_kind (F2 q)) /\ runs_from env F1 (k a) c1 o c2 F2) ->
  exists o c2 F2, (forall q, slot_kind (F2 q)) /\ runs_from env F0 (bind m k) c o c2 F2.
Proof.
  intros H1 (o & c2 & F2 & Hk & H2). exists o, c2, F2. split; [done|].
  by eapply runs_bind.
Qed.

Lemma runs_for_each {X} (l : list X) (f : X -> M unit) :
  (forall x F0 c, x ∈ l -> (forall q, slot_kind (F0 q)) ->
     exists o c1 F1, (forall q, slot_kind (F1 q)) /\ runs_from env F0 (f x) c o c1 F1) ->
  forall F0 c, (forall q, slot_kind (F0 q)) ->
  exists o c1 F1, (forall q, slot_kind (F1 q)) /\ runs_from env F0 (for_each l f) c o c1 F1.
Proof.
  intros Hf. induction l as [|x l IH]; intros F0 c HF0; simpl.
  - exists (Ok tt), c, F0. split; [done|]. apply runs_ret.
  - destruct (Hf x F0 c ltac:(set_solver) HF0) as (o & c1 & F1 & HF1 & Hr).
    destruct o as [[]|e|e].
    + eapply runs_ex_bind; [exact Hr|]. apply IH; [|done].
      intros y F c' Hy. apply Hf. set_solver.
    + exists (Err e), c1, F1. split; [done|]. by apply runs_bind_err.
    + exists (Exit e), c1, F1. split; [done|]. by apply runs_bind_exit.
Qed.
End FaultFree.

Lemma slot_kind_erase (h : list string) (F : Eff) (q : list string) :
  slot_kind (F q) -> slot_kind (eff_erase h F q).
Proof.
  unfold eff_erase. destruct (decide (under h q)); [|done].
  intros _. left. by exists None.
Qed.

Lemma slot_kind_create (h : list string) (F : Eff) (q : list string) :
  slot_kind (F q) -> slot_kind (eff_create h F q).
Proof.
  unfold eff_create. destruct (decide (on_path q h)); [|done].
  intros [[a Ha]|[Hid|Hens]].
  - left. exists (ens a). intros x. by rewrite Ha.
  - right; right. intros x. by rewrite Hid.
  - right; right. intros x. by rewrite Hens, ens_idem.
Qed.

Lemma slot_kind_set (h : list string) (name : string) (v : RegValue) (F : Eff)
    (vals : gmap string RegValue) (q : list string) :
  (forall x, F h x = Some vals) -> slot_kind (F q) -> slot_kind (eff_set h name v F q).
Proof.
  intros Hh. unfold eff_set. destruct (decide (q = h)) as [->|]; [|done].
  intros _. left. exists (Some (<[name := v]> vals)). intros x. by rewrite Hh.
Qed.

Lemma slot_kind_idem (f : Slot -> Slot) : slot_kind f -> f (f None) = f None.
Proof.
  intros [[a Ha]|[Hid|Hens]].
  - by rewrite !Ha.
  - by rewrite !Hid.
  - by rewrite !Hens.
Qed.

Lemma const_after_create (h : list string) (F : Eff) :
  h <> [] -> forall x, eff_create h (eff_erase h F) h x = Some ∅.
Proof.
  intros Hh x. unfold eff_create, eff_erase.
  destruct (decide (on_path h h)) as [_|Hn].
  - destruct (decide (under h h)) as [_|Hn]; [done|]. exfalso. apply Hn, under_refl.
  - exfalso. apply Hn. split; [done|apply under_refl].
Qed.

Lemma const_after_set (h : list string) (name : string) (v : RegValue) (F : Eff)
    (vals : gmap string RegValue) :
  (forall x, F h x = Some vals) -> forall x, eff_set h name v F h x = Some (<[name := v]> vals).
Proof.
  intros Hh x. unfold eff_set. destruct (decide (h = h)) as [_|]; [|done]. by rewrite Hh.
Qed.

(** A whole [createContextMenu] or [run] without faults is pointwise. *)
Ltac const_tac :=
  repeat (apply const_after_set);
  apply const_after_create; apply split_path_nonempty.

Ltac kinds_tac HF :=
  let q := fresh "q" in
  intros q;
  repeat first [ apply slot_kind_erase | apply slot_kind_create
               | eapply slot_kind_set; [solve [const_tac]|] ];
  apply HF.

Lemma createContextMenu_runs (env : Env) (Hnf : forall o q, fault env o q = None)
    (dir : string) (item : ContextMenu) :
  forall parent id F0 c, (forall q, slot_kind (F0 q)) ->
  exists o c1 F1, (forall q, slot_kind (F1 q)) /\
    runs_from env F0 (createContextMenu parent id item dir) c o c1 F1.
Proof.
  induction item as [typ title iconPath iconIndex extended admin command items IH]
    using ContextMenu_nested_ind.
  intros parent id F0 c HF0.
  cbn [createContextMenu].
  set (keyPath := key_path parent id).
  eapply runs_ex_bind; [apply runs_with_context_ok, runs_erase; done|].
  change (CURRENT_USER ++ split_path keyPath) with (split_path keyPath).
  eapply runs_ex_bind; [apply runs_with_context_ok, runs_create; done|]. cbv beta.
  eapply runs_ex_bind; [apply runs_with_context_ok; unfold SetStringValue;
                        eapply (runs_set env Hnf); const_tac|].
  destruct (String.eqb (Icon _ dir) EmptyString).
  1: eapply runs_ex_bind; [apply runs_ret|].
  2: eapply runs_ex_bind; [apply runs_with_context_ok; unfold SetStringValue;
                           eapply (runs_set env Hnf); const_tac|].
  all: destruct extended.
  all: try (eapply runs_ex_bind; [apply runs_with_context_ok; unfold SetStringValue;
                                  eapply (runs_set env Hnf); const_tac|]).
  all: try (eapply runs_ex_bind; [apply runs_ret|]).
  all: destruct admin.
  all: try (eapply runs_ex_bind; [apply runs_with_context_ok; unfold SetStringValue;
                                  eapply (runs_set env Hnf); const_tac|]).
  all: try (eapply runs_ex_bind; [apply runs_ret|]).
  all: destruct (String.eqb typ ContextMenuType_Folder).
  (* the folder branch *)
  all: try (eapply runs_ex_bind; [apply runs_with_context_ok; unfold SetStringValue;
                                  eapply (runs_set env Hnf); const_tac|];
            eapply runs_ex_bind; [apply runs_with_context_ok, runs_create; done|]; cbv beta;
            match goal with
            | |- exists o c2 F2, _ /\ runs_from _ ?F _ ?c' o c2 F2 =>
                assert (HF : forall q, slot_kind (F q)) by kinds_tac HF0;
                destruct (@runs_for_each env Hnf _ items (fun '(subID, subItem) =>
                    with_context (Errorf "failed to create context menu ID %q: %w" [subID])
                      (createContextMenu (parent ++ "\" ++ id ++ "\shell")%string subID subItem dir))
                    ltac:(intros [subID subItem] F' c'' Hx HF';
                          rewrite Forall_forall in IH;
                          destruct (IH _ Hx (parent ++ "\" ++ id ++ "\shell")%string subID F' c'' HF')
                            as (o & c1 & F1 & HK & Hr);
                          exists (wrap_out (Errorf "failed to create context menu ID %q: %w"
                                              [subID]) o), c1, F1;
                          split; [done|]; by apply runs_with_context)
                    F c' HF) as (o & c1 & F1 & HK & Hr);
                exists o, c1, F1; split; [done|];
                eapply runs_ext; [|exact Hr];
                intros st; symmetry; apply createContextMenu_folder_loop
            end).
  (* the command branch *)
  all: eapply runs_ex_bind; [apply runs_with_context_ok, runs_erase; done|].
  all: change (CURRENT_USER ++ split_path (keyPath +:+ "\command"))
         with (split_path (keyPath +:+ "\command")).
  all: eapply runs_ex_bind; [apply runs_with_context_ok, runs_create; done|]; cbv beta.
  all: match goal with
       | |- exists o c2 F2, _ /\ runs_from _ ?F (bind (CommandString ?it ?d) _) ?c' o c2 F2 =>
           assert (HF : forall q, slot_kind (F q)) by kinds_tac HF0;
           pose proof (runs_CommandString env F it d c') as Hcs;
           destruct (fst (CommandString it d env (mkSt ∅ [] c'))) as [cmd|e|e]
         end.
  all: try (do 3 eexists; split; [exact HF|]; by apply runs_bind_err).
  all: try (do 3 eexists; split; [exact HF|]; by apply runs_bind_exit).
  all: eapply runs_ex_bind; [exact Hcs|].
  all: do 3 eexists; split;
         [|apply runs_with_context_ok; unfold SetExpandStringValue;
           eapply (runs_set env Hnf); const_tac].
  all: kinds_tac HF0.
Qed.

Lemma run_runs (env : Env) (Hnf : forall o q, fault env o q = None)
    (items : list (string * ContextMenu)) (dir : string) (F0 : Eff) (c : string) :
  (forall q, slot_kind (F0 q)) ->
  exists o c1 F1, (forall q, slot_kind (F1 q)) /\ runs_from env F0 (run items dir) c o c1 F1.
Proof.
  intros HF0. unfold run.
  apply (@runs_for_each env Hnf _ items); [|done].
  intros [id item] F c' _ HF.
  destruct (createContextMenu_runs env Hnf dir item "" id F c' HF) as (o & c1 & F1 & HK & Hr).
  exists (wrap_out (Errorf "failed to create context menu ID %q: %w" [id]) o), c1, F1.
  split; [done|]. by apply runs_with_context.
Qed.

Lemma wf_reg_empty : wf_reg ∅.
Proof. intros q v Hq. by rewrite lookup_empty in Hq. Qed.

(** ** C8 *)

(** C8 (counterexample): Go ranges over the manifest's [Items] map in a
    fresh random order on every run. The two enumeration orders of
    [{"a": X, "a\command": X}] give two runs whose second does not leave
    the state of the first: the entry ["a\command"] writes into the
    [command] subkey of entry ["a"]. *)
Lemma install_twice_other_order_differs :
  Permutation items_collide_ab items_collide_ba /\
  reg (snd (install items_collide_ba "C:\menu" env_menu
              (reg (snd (install items_collide_ab "C:\menu" env_menu ∅)))))
  <> reg (snd (install items_collide_ab "C:\menu" env_menu ∅)).
Proof.
  split; [apply Permutation_swap|].
  intros H.
  apply (f_equal (lookup ["Software"; "Classes"; "Directory"; "Background"; "shell";
                          "a"; "command"; "command"])) in H.
  revert H. vm_compute. discriminate.
Qed.

(** C8 (amended): for one enumeration order of the manifest's items, and
    with no registry call failing, installing twice on an empty registry
    ends with the same outcome and the same registry as installing once;
    the second run's erases and re-creates give back exactly the state of
    the first run. This holds whatever the nircmd.exe lookup finds, also
    when it ends the process. *)
Theorem install_twice_same_order (env : Env) (Hnf : forall o q, fault env o q = None)
    (items : list (string * ContextMenu)) (dir : string) :
  fst (install items dir env (reg (snd (install items dir env ∅))))
    = fst (install items dir env ∅) /\
  reg (snd (install items dir env (reg (snd (install items dir env ∅)))))
    = reg (snd (install items dir env ∅)).
Proof.
  destruct (run_runs env Hnf items dir (fun _ x => x) EmptyString
              (fun q => or_intror (or_introl (fun x => eq_refl))))
    as (o & c1 & F1 & HK & Hr).
  unfold install.
  destruct (Hr ∅ (mkSt ∅ [] EmptyString) wf_reg_empty eq_refl (fun q => eq_refl))
    as (Ho1 & _ & Hwf1 & Hr1).
  set (st1 := snd (run items dir env (mkSt ∅ [] EmptyString))) in *.
  destruct (Hr (reg st1) (mkSt (reg st1) [] EmptyString) Hwf1 eq_refl (fun q => eq_refl))
    as (Ho2 & _ & _ & Hr2).
  split; [by rewrite Ho1, Ho2|].
  apply map_eq. intros q. rewrite Hr2, !Hr1.
  exact (slot_kind_idem _ (HK q)).
Qed.

Lemma install_twice_same_order_witness :
  (forall o q, fault env_menu o q = None) /\
  fst (install items_collide_ab "C:\menu" env_menu
         (reg (snd (install items_collide_ab "C:\menu" env_menu ∅))))
    = fst (install items_collide_ab "C:\menu" env_menu ∅) /\
  reg (snd (install items_collide_ab "C:\menu" env_menu
              (reg (snd (install items_collide_ab "C:\menu" env_menu ∅)))))
    = reg (snd (install items_collide_ab "C:\menu" env_menu ∅)).
Proof.
  split; [intros o q; reflexivity|].
  apply (install_twice_same_order env_menu (fun o q => eq_refl)).
Defined.

(** ** Footprints of runs with faults *)

Lemma foot_refl (P : list string) (r : Reg) : foot P r r.
Proof. intros q. by left. Qed.

Lemma foot_trans (P : list string) (r1 r2 r3 : Reg) :
  foot P r1 r2 -> foot P r2 r3 -> foot P r1 r3.
Proof.
  intros H1 H2 q. destruct (H1 q) as [E1|[U|(U & N1 & S1)]]; [| by right; left |].
  - destruct (H2 q) as [E2|[U|(U & N2 & S2)]].
    + left. congruence.
    + by right; left.
    + right; right. rewrite <- E1. done.
  - destruct (H2 q) as [E2|[U'|(U' & N2 & S2)]].
    + right; right. by rewrite E2.
    + by right; left.
    + congruence.
Qed.

Lemma under_comparable (q P R : list string) : under q R -> under P R -> under q P \/ under P q.
Proof.
  intros [t ->] [u Hu]. destruct (app_eq_app _ _ _ _ Hu) as (l & [[-> _]|[-> _]]).
  - right. by exists l.
  - left. by exists l.
Qed.

Lemma foot_mono (P P' : list string) (r r' : Reg) : under P P' -> foot P' r r' -> foot P r r'.
Proof.
  intros HP H q. destruct (H q) as [E|[U|(U & N & S)]].
  - by left.
  - right; left. by eapply under_trans.
  - destruct (under_comparable q P P' U HP) as [U'|U'].
    + by right; right.
    + by right; left.
Qed.

Lemma stays_ret {A} (P : list string) (a : A) : stays P (ret a).
Proof. intros env st Hwf. split; [done|]. apply foot_refl. Qed.

Lemma stays_bind {A B} (P : list string) (m : M A) (k : A -> M B) :
  stays P m -> (forall a, stays P (k a)) -> stays P (bind m k).
Proof.
  intros Hm Hk env st Hwf. unfold bind.
  destruct (Hm env st Hwf) as [Hwf1 Hf1].
  destruct (m env st) as [[a|e|e] st1]; simpl in *; [|done|done].
  destruct (Hk a env st1 Hwf1) as [Hwf2 Hf2]. split; [done|]. by eapply foot_trans.
Qed.

Lemma stays_with_context {A} (P : list string) (w : error -> error) (m : M A) :
  stays P m -> stays P (with_context w m).
Proof.
  intros Hm env st Hwf. unfold with_context.
  destruct (Hm env st Hwf) as [Hwf1 Hf1].
  destruct (m env st) as [[a|e|e] st1]; simpl in *; done.
Qed.

Lemma stays_ext {A} (P : list string) (m m' : M A) :
  (forall env st, m env st = m' env st) -> stays P m -> stays P m'.
Proof. intros Heq Hm env st. rewrite <- Heq. apply Hm. Qed.

Lemma stays_for_each {X} (P : list string) (l : list X) (f : X -> M unit) :
  (forall x, x ∈ l -> stays P (f x)) -> stays P (for_each l f).
Proof.
  induction l as [|x l IH]; intros Hf; simpl; [apply stays_ret|].
  apply stays_bind; [apply Hf; set_solver|]. intros _. apply IH.
  intros y Hy. apply Hf. set_solver.
Qed.

Lemma stays_erase (P : list string) (path : string) :
  under P (split_path path) -> stays P (deleteRegKeyRecursive CURRENT_USER path).
Proof.
  intros HP env st Hwf.
  destruct (deleteRegKeyRecursive_post CURRENT_USER path env st _ _ Hwf (surjective_pairing _))
    as (calls & _ & _ & Hreg & Hwf' & _).
  split; [done|]. intros q. destruct (Hreg q) as [E|[U _]]; [by left|].
  right; left. by eapply under_trans.
Qed.

Lemma stays_bind_create {B} (P : list string) (w : error -> error) (path : string)
    (k : list string -> M B) :
  under P (split_path path) -> stays P (k (split_path path)) ->
  stays P (bind (with_context w (CreateKey CURRENT_USER path)) k).
Proof.
  intros HP Hk env st Hwf. unfold bind, with_context, CreateKey, adapter_call.
  destruct (fault env _ _) as [n|]; simpl; [split; [done|apply foot_refl]|].
  set (st1 := mkSt (ensure_path [] (split_path path) (reg st)) _ _).
  assert (Hwf1 : wf_reg (reg st1)).
  { apply wf_ensure_path; [done|apply split_path_seg_ok]. }
  destruct (Hk env st1 Hwf1) as [Hwf2 Hf2]. split; [done|].
  eapply foot_trans; [|exact Hf2].
  intros q. simpl. rewrite CreateKey_lookup.
  destruct (decide (on_path q (split_path path))) as [[Hne Hu]|]; [|by left].
  destruct (reg st !! q) as [w0|] eqn:Ew; [by left|].
  destruct (under_comparable q P _ Hu HP) as [U|U].
  - by right; right.
  - by right; left.
Qed.

Lemma stays_set (P h : list string) (name : string) (v : RegValue) :
  under P h -> stays P (set_value h name v).
Proof.
  intros HP env st Hwf. unfold set_value, adapter_call.
  destruct (fault env _ _) as [n|]; simpl; [split; [done|apply foot_refl]|].
  destruct (reg st !! h) as [vals|] eqn:Eh; simpl; [|split; [done|apply foot_refl]].
  split; [apply wf_insert_existing; [done|by eexists]|].
  intros q. destruct (decide (q = h)) as [->|Hne].
  - by right; left.
  - left. by rewrite lookup_insert_ne by congruence.
Qed.

Lemma stays_CommandString (P : list string) (item : ContextMenu) (dir : string) :
  stays P (CommandString item dir).
Proof.
  intros env st Hwf. rewrite CommandString_state. simpl. split; [done|]. apply foot_refl.
Qed.

Lemma key_path_command (parent id : string) :
  split_path (key_path parent id ++ "\command")%string = split_path (key_path parent id) ++ ["command"].
Proof. by rewrite (split_path_app _ "command"). Qed.

Lemma key_path_shell (parent id : string) :
  split_path (key_path parent id ++ "\shell")%string = split_path (key_path parent id) ++ ["shell"].
Proof. by rewrite (split_path_app _ "shell"). Qed.

Lemma key_path_child (parent id subID : string) :
  split_path (key_path (parent ++ "\" ++ id ++ "\shell") subID)
  = split_path (key_path parent id) ++ "shell" :: split_path subID.
Proof.
  assert (E : key_path (parent ++ "\" ++ id ++ "\shell") subID
              = ((key_path parent id ++ "\shell") ++ String bs subID)%string).
  { unfold key_path. rewrite !sapp_assoc. rewrite <- (sapp_assoc _ "\" subID). reflexivity. }
  rewrite E, split_path_app, key_path_shell, <- app_assoc. reflexivity.
Qed.

Lemma stays_mono {A} (P P' : list string) (m : M A) : under P P' -> stays P' m -> stays P m.
Proof.
  intros HP Hm env st Hwf. destruct (Hm env st Hwf) as [Hwf' Hf]. split; [done|].
  by eapply foot_mono.
Qed.

Lemma createContextMenu_stays (dir : string) (item : ContextMenu) :
  forall parent id, stays (split_path (key_path parent id)) (createContextMenu parent id item dir).
Proof.
  induction item as [typ title iconPath iconIndex extended admin command items IH]
    using ContextMenu_nested_ind.
  intros parent id. cbn [createContextMenu].
  apply stays_bind; [apply stays_with_context, stays_erase, under_refl|intros _].
  apply stays_bind_create; [apply under_refl|].
  apply stays_bind; [apply stays_with_context, stays_set, under_refl|intros _].
  apply stays_bind;
    [destruct (String.eqb _ _); [apply stays_ret|apply stays_with_context, stays_set, under_refl]
    |intros _].
  apply stays_bind;
    [destruct extended; [apply stays_with_context, stays_set, under_refl|apply stays_ret]
    |intros _].
  apply stays_bind;
    [destruct admin; [apply stays_with_context, stays_set, under_refl|apply stays_ret]
    |intros _].
  destruct (String.eqb typ ContextMenuType_Folder).
  - apply stays_bind; [apply stays_with_context, stays_set, under_refl|intros _].
    apply stays_bind_create; [rewrite key_path_shell; apply under_app|].
    eapply stays_ext; [intros env st; symmetry; apply createContextMenu_folder_loop|].
    apply stays_for_each. intros [subID subItem] Hx. apply stays_with_context.
    rewrite Forall_forall in IH.
    eapply stays_mono; [|apply (IH _ Hx)]. rewrite key_path_child. apply under_app.
  - apply stays_bind; [apply stays_with_context, stays_erase;
                       rewrite key_path_command; apply under_app|intros _].
    apply stays_bind_create; [rewrite key_path_command; apply under_app|].
    apply stays_bind; [apply stays_CommandString|intros cmd].
    apply stays_with_context, stays_set. rewrite key_path_command. apply under_app.
Qed.

Lemma under_nil (q : list string) : under [] q.
Proof. by exists q. Qed.

Lemma run_wf (items : list (string * ContextMenu)) (dir : string) (env : Env) (st : St) :
  wf_reg (reg st) -> wf_reg (reg (snd (run items dir env st))).
Proof.
  intros Hwf. refine (proj1 (_ env st Hwf)).
  apply (stays_for_each []). intros [id item] _. apply stays_with_context.
  eapply stays_mono; [apply under_nil|apply createContextMenu_stays].
Qed.

Lemma for_each_app {X} (l1 l2 : list X) (f : X -> M unit) (env : Env) (st : St) :
  for_each (l1 ++ l2) f env st
  = match for_each l1 f env st with
    | (Ok _, st') => for_each l2 f env st'
    | res => res
    end.
Proof.
  revert st. induction l1 as [|x l1 IH]; intros st; simpl; [done|].
  unfold bind. destruct (f x env st) as [[[]|e|e] st1]; [apply IH|done|done].
Qed.

(** ** C9 *)

(** C9 (amended): [run] stops at the first entry whose [createContextMenu]
    does not succeed. If the entries before it succeeded, leaving [st1],
    and the entry's own call ends in an error (or in the end of the
    process) with state [st2], then the whole run ends in exactly that
    outcome, wrapped with the entry's ID, and in exactly the state [st2]:
    nothing is rolled back and no later entry makes a registry call.
    Between [st1] and [st2] the registry changed only at the failed
    entry's key and below it, and by creating missing (empty) keys on the
    path to it; an earlier entry's key or value is therefore left intact
    unless it lies at or below the failed entry's key. *)
Theorem run_fail_fast (pre post : list (string * ContextMenu)) (id : string) (item : ContextMenu)
    (dir : string) (env : Env) (st0 st1 st2 : St) (o : Outcome unit) :
  wf_reg (reg st0) ->
  run pre dir env st0 = (Ok tt, st1) ->
  createContextMenu "" id item dir env st1 = (o, st2) ->
  o <> Ok tt ->
  run (pre ++ (id, item) :: post) dir env st0
    = (wrap_out (Errorf "failed to create context menu ID %q: %w" [id]) o, st2) /\
  foot (split_path (key_path "" id)) (reg st1) (reg st2).
Proof.
  intros Hwf E1 E2 Ho. split.
  - unfold run in *. rewrite for_each_app, E1. simpl. unfold bind, with_context.
    rewrite E2. destruct o as [[]|e|e]; [contradiction|done|done].
  - assert (Hwf1 : wf_reg (reg st1)).
    { pose proof (run_wf pre dir env st0 Hwf) as H. by rewrite E1 in H. }
    destruct (createContextMenu_stays dir item "" id env st1 Hwf1) as [_ Hf].
    by rewrite E2 in Hf.
Qed.

(** C9 (counterexample): five entries, the third of which, ["a\command"],
    fails to set its MUIVerb. The first two entries were installed
    successfully, but the third entry's erase of its own key removed the
    [command] subkey value that entry ["a"] had written. *)
Lemma install_fail_changes_earlier_entry :
  fst (install (take 2 items_five) "C:\menu" env_fail_a_command ∅) = Ok tt /\
  (exists e, fst (install items_five "C:\menu" env_fail_a_command ∅) = Err e) /\
  reg (snd (install items_five "C:\menu" env_fail_a_command ∅))
    !! split_path (key_path "" "a" ++ "\command")
  <> reg (snd (install (take 2 items_five) "C:\menu" env_fail_a_command ∅))
    !! split_path (key_path "" "a" ++ "\command").
Proof.
  split; [vm_compute; reflexivity|]. split; [eexists; vm_compute; reflexivity|].
  vm_compute. discriminate.
Qed.

Lemma run_fail_fast_witness :
  wf_reg (reg st_empty) /\
  run (take 2 items_five) "C:\menu" env_fail_a_command st_empty
    = (Ok tt, snd (run (take 2 items_five) "C:\menu" env_fail_a_command st_empty)) /\
  createContextMenu "" "a\command" item_x "C:\menu" env_fail_a_command
    (snd (run (take 2 items_five) "C:\menu" env_fail_a_command st_empty))
  = (fst (createContextMenu "" "a\command" item_x "C:\menu" env_fail_a_command
            (snd (run (take 2 items_five) "C:\menu" env_fail_a_command st_empty))),
     snd (createContextMenu "" "a\command" item_x "C:\menu" env_fail_a_command
            (snd (run (take 2 items_five) "C:\menu" env_fail_a_command st_empty)))) /\
  fst (createContextMenu "" "a\command" item_x "C:\menu" env_fail_a_command
         (snd (run (take 2 items_five) "C:\menu" env_fail_a_command st_empty))) <> Ok tt /\
  run (take 2 items_five ++ ("a\command", item_x) :: drop 3 items_five) "C:\menu"
      env_fail_a_command st_empty
  = (wrap_out (Errorf "failed to create context menu ID %q: %w" ["a\command"])
       (fst (createContextMenu "" "a\command" item_x "C:\menu" env_fail_a_command
               (snd (run (take 2 items_five) "C:\menu" env_fail_a_command st_empty)))),
     snd (createContextMenu "" "a\command" item_x "C:\menu" env_fail_a_command
            (snd (run (take 2 items_five) "C:\menu" env_fail_a_command st_empty)))) /\
  foot (split_path (key_path "" "a\command"))
    (reg (snd (run (take 2 items_five) "C:\menu" env_fail_a_command st_empty)))
    (reg (snd (createContextMenu "" "a\command" item_x "C:\menu" env_fail_a_command
                 (snd (run (take 2 items_five) "C:\menu" env_fail_a_command st_empty))))).
Proof.
  assert (Hwf : wf_reg (reg st_empty)) by apply wf_reg_empty.
  assert (E1 : run (take 2 items_five) "C:\menu" env_fail_a_command st_empty
    = (Ok tt, snd (run (take 2 items_five) "C:\menu" env_fail_a_command st_empty)))
    by (vm_compute; reflexivity).
  assert (Ho : fst (createContextMenu "" "a\command" item_x "C:\menu" env_fail_a_command
         (snd (run (take 2 items_five) "C:\menu" env_fail_a_command st_empty))) <> Ok tt)
    by (vm_compute; discriminate).
  split; [exact Hwf|]. split; [exact E1|]. split; [apply surjective_pairing|].
  split; [exact Ho|].
  exact (run_fail_fast _ _ _ _ _ _ _ _ _ _ Hwf E1 (surjective_pairing _) Ho).
Defined.

Lemma no_subcommands_fresh (h : list string) (F : Eff) (x : Slot) :
  h <> [] -> no_subcommands (eff_create h (eff_erase h F) h x).
Proof.
  intros Hh vals. rewrite (const_after_create h F Hh x). intros [= <-]. apply lookup_empty.
Qed.

Lemma no_subcommands_set (h q : list string) (name : string) (v : RegValue) (F : Eff) (x : Slot) :
  name <> "SubCommands" -> no_subcommands (F q x) -> no_subcommands (eff_set h name v F q x).
Proof.
  intros Hn HF vals. unfold eff_set. destruct (decide (q = h)); [|apply HF].
  destruct (F q x) as [w|] eqn:Ew; simpl; [|done].
  intros [= <-]. rewrite lookup_insert_ne by congruence. by apply HF.
Qed.

Lemma no_subcommands_create (h q : list string) (F : Eff) (x : Slot) :
  no_subcommands (F q x) -> no_subcommands (eff_create h F q x).
Proof.
  intros HF vals. unfold eff_create. destruct (decide _); [|apply HF].
  destruct (F q x) as [w|] eqn:Ew; simpl.
  - intros [= <-]. by apply HF.
  - intros [= <-]. apply lookup_empty.
Qed.

Lemma none_erase_at (h q : list string) (F : Eff) (x : Slot) :
  under h q -> eff_erase h F q x = None.
Proof. intros Hu. unfold eff_erase. by destruct (decide _). Qed.

Lemma none_erase (h q : list string) (F : Eff) (x : Slot) :
  F q x = None -> eff_erase h F q x = None.
Proof. intros HF. unfold eff_erase. by destruct (decide _). Qed.

Lemma none_create (h q : list string) (F : Eff) (x : Slot) :
  ~ on_path q h -> F q x = None -> eff_create h F q x = None.
Proof. intros Hn HF. unfold eff_create. by destruct (decide _). Qed.

Lemma none_set (h q : list string) (name : string) (v : RegValue) (F : Eff) (x : Slot) :
  q <> h -> F q x = None -> eff_set h name v F q x = None.
Proof. intros Hn HF. unfold eff_set. by destruct (decide _). Qed.

Lemma shell_not_command (P t : list string) : P ++ "shell" :: t <> P ++ ["command"].
Proof. intros H. apply app_inv_head in H. discriminate H. Qed.

Lemma shell_not_self (P t : list string) : P ++ "shell" :: t <> P.
Proof. intros H. apply (f_equal length) in H. rewrite length_app in H. simpl in H. lia. Qed.

Lemma shell_not_on_command (P t : list string) : ~ on_path (P ++ "shell" :: t) (P ++ ["command"]).
Proof.
  intros [_ [u Hu]]. rewrite <- app_assoc in Hu. apply app_inv_head in Hu. discriminate Hu.
Qed.

Lemma shell_not_on_self (P t : list string) : ~ on_path (P ++ "shell" :: t) P.
Proof.
  intros [_ [u Hu]]. apply (f_equal length) in Hu. rewrite !length_app in Hu. simpl in Hu. lia.
Qed.

Lemma createContextMenu_with_items (parent id : string) (c : ContextMenu) (dir : string)
    (items : list (string * ContextMenu)) (env : Env) (st : St) :
  Type_ c <> ContextMenuType_Folder ->
  createContextMenu parent id (with_items c items) dir env st
  = createContextMenu parent id c dir env st.
Proof.
  intros Ht. destruct c as [typ title iconPath iconIndex extended admin command items0].
  simpl in Ht. apply String.eqb_neq in Ht. cbn [createContextMenu with_items].
  simpl. rewrite Ht. reflexivity.
Qed.

Ltac item_chain Hnf Hcs :=
  repeat first
    [ eapply runs_bind;
        [match goal with
         | |- runs_from ?e ?F (CommandString ?it ?d) ?c' _ _ _ =>
             generalize (runs_CommandString e F it d c'); rewrite Hcs; intros Hc; exact Hc
         end|]; cbv beta
    | eapply runs_bind; [apply runs_with_context_ok, runs_erase; done|]; cbv beta
    | eapply runs_bind; [apply runs_with_context_ok, runs_create; done|]; cbv beta
    | eapply runs_bind; [apply runs_with_context_ok; unfold SetStringValue;
                         eapply (runs_set _ Hnf); const_tac|]; cbv beta
    | eapply runs_bind; [apply runs_ret|]; cbv beta
    | apply runs_with_context_ok; unfold SetExpandStringValue;
        eapply (runs_set _ Hnf); const_tac ].

Lemma no_subcommands_erase (h q : list string) (F : Eff) (x : Slot) :
  no_subcommands (F q x) -> no_subcommands (eff_erase h F q x).
Proof. intros HF. unfold eff_erase. destruct (decide _); [|done]. by intros vals. Qed.

(** ** C10 *)

(** C10: a node whose [Type_] is not ["folder"] (the empty string, ["item"]
    or anything else) is created as an item. Its [Items] are never looked
    at: the call does the same with any other [Items]. With no registry
    call failing and its command line projected to [s], the call succeeds;
    afterwards the node's key has a [command] subkey holding exactly the
    default value [s] (REG_EXPAND_SZ), the node's key holds no
    [SubCommands] value, and there is no key at or below the node's
    [shell] subkey. *)
Theorem createContextMenu_item (env : Env) (Hnf : forall o q, fault env o q = None)
    (parent id : string) (c : ContextMenu) (dir : string) (st : St) (s : string) :
  Type_ c <> ContextMenuType_Folder ->
  wf_reg (reg st) ->
  fst (CommandString c dir env st) = Ok s ->
  (forall items, createContextMenu parent id (with_items c items) dir env st
                 = createContextMenu parent id c dir env st) /\
  fst (createContextMenu parent id c dir env st) = Ok tt /\
  reg (snd (createContextMenu parent id c dir env st))
    !! (split_path (key_path parent id) ++ ["command"])
    = Some {[ EmptyString := mkRegValue EXPAND_SZ s ]} /\
  no_subcommands (reg (snd (createContextMenu parent id c dir env st))
                    !! split_path (key_path parent id)) /\
  (forall t, reg (snd (createContextMenu parent id c dir env st))
               !! (split_path (key_path parent id) ++ "shell" :: t) = None).
Proof.
  intros Ht Hwf Hcs.
  split; [intros items; by apply createContextMenu_with_items|].
  rewrite CommandString_state in Hcs. cbn [fst] in Hcs.
  destruct c as [typ title iconPath iconIndex extended admin command items].
  simpl in Ht. apply String.eqb_neq in Ht.
  assert (Hr : exists c1 F1,
    runs_from env (fun _ x => x) (createContextMenu parent id
       (mkContextMenu typ title iconPath iconIndex extended admin command items) dir)
      (nircmd_cache st)
      (Ok tt) c1 F1 /\
    (forall x, F1 (split_path (key_path parent id) ++ ["command"]) x = Some {[ EmptyString := mkRegValue EXPAND_SZ s ]}) /\
    (forall x, no_subcommands (F1 (split_path (key_path parent id)) x)) /\
    (forall t x, F1 (split_path (key_path parent id) ++ "shell" :: t) x = None)).
  { destruct (String.eqb (Icon (mkContextMenu typ title iconPath iconIndex extended admin command items)
                   dir) EmptyString) eqn:Hi;
      destruct extended; destruct admin.
    all: do 2 eexists; split.
    all: try (cbn [createContextMenu]; rewrite Hi, Ht; item_chain Hnf Hcs).
    all: unfold CURRENT_USER; rewrite ?app_nil_l, key_path_command.
    all: split; [|split].
    all: try solve [ intros x; rewrite (const_after_set _ _ _ _ ∅); [by rewrite insert_empty|];
                     apply const_after_create; intros Hn; by destruct (app_eq_nil _ _ Hn) ].
    all: try solve [ intros x;
        repeat first [ apply no_subcommands_fresh; apply split_path_nonempty
                     | apply no_subcommands_set; [discriminate|]
                     | apply no_subcommands_create
                     | apply no_subcommands_erase ] ].
    all: try solve [intros t x;
        repeat first [ apply none_erase_at; apply under_app
                     | apply none_set; [solve [apply shell_not_command | apply shell_not_self]|]
                     | apply none_create;
                         [solve [apply shell_not_on_command | apply shell_not_on_self]|]
                     | apply none_erase ] ].
  }
  destruct Hr as (c1 & F1 & Hr & H1 & H2 & H3).
  destruct (Hr (reg st) st Hwf eq_refl (fun q => eq_refl)) as (Ho & _ & _ & Hq).
  split; [done|]. rewrite !Hq. split; [apply H1|]. split; [apply H2|]. intros t. rewrite Hq. apply H3.
Qed.

Lemma createContextMenu_item_witness :
  (forall o q, fault env_menu o q = None) /\
  Type_ item_untyped <> ContextMenuType_Folder /\
  wf_reg (reg st_empty) /\
  fst (CommandString item_untyped "C:\menu" env_menu st_empty) = Ok "x.exe" /\
  ((forall items, createContextMenu "" "a" (with_items item_untyped items) "C:\menu" env_menu st_empty
                  = createContextMenu "" "a" item_untyped "C:\menu" env_menu st_empty) /\
   fst (createContextMenu "" "a" item_untyped "C:\menu" env_menu st_empty) = Ok tt /\
   reg (snd (createContextMenu "" "a" item_untyped "C:\menu" env_menu st_empty))
     !! (split_path (key_path "" "a") ++ ["command"])
     = Some {[ EmptyString := mkRegValue EXPAND_SZ "x.exe" ]} /\
   no_subcommands (reg (snd (createContextMenu "" "a" item_untyped "C:\menu" env_menu st_empty))
                     !! split_path (key_path "" "a")) /\
   (forall t, reg (snd (createContextMenu "" "a" item_untyped "C:\menu" env_menu st_empty))
                !! (split_path (key_path "" "a") ++ "shell" :: t) = None)).
Proof.
  assert (Hnf : forall o q, fault env_menu o q = None) by reflexivity.
  assert (Ht : Type_ item_untyped <> ContextMenuType_Folder) by discriminate.
  assert (Hwf : wf_reg (reg st_empty)) by apply wf_reg_empty.
  assert (Hcs : fst (CommandString item_untyped "C:\menu" env_menu st_empty) = Ok "x.exe")
    by (vm_compute; reflexivity).
  split; [exact Hnf|]. split; [exact Ht|]. split; [exact Hwf|]. split; [exact Hcs|].
  exact (createContextMenu_item env_menu Hnf "" "a" item_untyped "C:\menu" st_empty "x.exe"
           Ht Hwf Hcs).
Defined.

(* ================================================================== *)
(** * Further properties of the code *)

(** ** strings.ReplaceAll *)

Lemma slen_app (a b : string) : String.length (a ++ b) = String.length a + String.length b.
Proof. induction a as [|c a IH]; simpl; [done|]. by rewrite IH. Qed.

Lemma strip_prefix_s_spec (p s r : string) : strip_prefix_s p s = Some r <-> s = (p ++ r)%string.
Proof.
  revert s. induction p as [|c p IH]; intros s; simpl.
  - split; [by intros [= ->]|by intros ->].
  - destruct s as [|d s]; [split; discriminate|].
    destruct (Ascii.eqb_spec c d) as [->|Hne].
    + rewrite IH. split; [by intros ->|by intros [= ->]].
    + split; [discriminate|]. intros [= <- _]. done.
Qed.

Lemma replace_go_nil (f : nat) (old new : string) : replace_go f EmptyString old new = EmptyString.
Proof. by destruct f. Qed.

Lemma replace_go_fuel (old new : string) : old <> EmptyString ->
  forall f f' s, String.length s <= f -> String.length s <= f' ->
  replace_go f s old new = replace_go f' s old new.
Proof.
  intros Hold. induction f as [|f IH]; intros f' s H1 H2.
  - destruct s; simpl in H1; [|lia]. by rewrite !replace_go_nil.
  - destruct s as [|c s']; [by rewrite !replace_go_nil|].
    destruct f' as [|f']; simpl in H2; [lia|]. simpl.
    destruct (strip_prefix_s old (String c s')) as [rest|] eqn:E.
    + apply strip_prefix_s_spec in E.
      assert (Hl : String.length rest < String.length (String c s')).
      { rewrite E, slen_app. destruct old; [done|simpl; lia]. }
      f_equal. apply IH; simpl in *; lia.
    + f_equal. apply IH; simpl in *; lia.
Qed.

Lemma ReplaceAll_go (s old new : string) : old <> EmptyString ->
  ReplaceAll s old new = replace_go (String.length s) s old new.
Proof. intros H. unfold ReplaceAll. by destruct old. Qed.

(** ** fmt's %d *)

Lemma digit_value_digit (d : N) : (d < 10)%N -> digit_value (digit d) = Some d.
Proof.
  intros Hd. unfold digit_value, digit.
  rewrite Ascii.N_ascii_embedding by lia.
  replace ((48 <=? 48 + d)%N && (48 + d <=? 57)%N)%bool with true
    by (symmetry; apply andb_true_intro; split; apply N.leb_le; lia).
  f_equal. lia.
Qed.

Lemma digits_go_value (f : nat) : forall n acc v, (n < 10 ^ N.of_nat f)%N ->
  exists k, dec_from v (digits_go f n acc) = dec_from (v * 10 ^ k + n)%N acc.
Proof.
  induction f as [|f IH]; intros n acc v Hn.
  - simpl in Hn. exists 0%N. simpl. f_equal. lia.
  - cbn [digits_go]. destruct (n <? 10)%N eqn:E.
    + apply N.ltb_lt in E. exists 1%N. simpl.
      rewrite digit_value_digit by (apply N.mod_lt; lia).
      rewrite N.mod_small by done. f_equal. lia.
    + apply N.ltb_ge in E.
      assert (Hq : (n / 10 < 10 ^ N.of_nat f)%N).
      { apply N.Div0.div_lt_upper_bound. rewrite Nat2N.inj_succ, N.pow_succ_r' in Hn. lia. }
      destruct (IH (n / 10)%N (String (digit (n mod 10)) acc) v Hq) as [k Hk].
      exists (N.succ k). rewrite Hk. simpl.
      rewrite digit_value_digit by (apply N.mod_lt; lia).
      f_equal. rewrite N.pow_succ_r'.
      pose proof (N.div_mod n 10 ltac:(lia)). nia.
Qed.

Lemma digits_go_head (f : nat) : forall n c t, digit_value c <> None ->
  exists c' t', digits_go f n (String c t) = String c' t' /\ digit_value c' <> None.
Proof.
  induction f as [|f IH]; intros n c t Hc; [by exists c, t|].
  cbn [digits_go]. destruct (n <? 10)%N.
  - eexists _, _. split; [reflexivity|]. rewrite digit_value_digit; [done|apply N.mod_lt; lia].
  - apply IH. rewrite digit_value_digit; [done|apply N.mod_lt; lia].
Qed.

Lemma fmt_d_fuel (z : Z) :
  (Z.to_N (Z.abs z) < 10 ^ N.of_nat (S (Pos.to_nat (Pos.size (Z.to_pos (Z.abs z + 1))))))%N.
Proof.
  set (p := Z.to_pos (Z.abs z + 1)).
  assert (Hp : Z.pos p = (Z.abs z + 1)%Z) by (apply Z2Pos.id; lia).
  apply N.lt_le_trans with (Npos p).
  { apply N2Z.inj_lt. rewrite Z2N.id by lia. simpl. lia. }
  apply N.le_trans with (2 ^ Npos (Pos.size p))%N.
  { pose proof (Pos.size_gt p) as H. apply N.lt_le_incl. exact H. }
  apply N.le_trans with (10 ^ Npos (Pos.size p))%N.
  { apply N.pow_le_mono_l. lia. }
  apply N.pow_le_mono_r; [lia|]. rewrite Nat2N.inj_succ, positive_nat_N. lia.
Qed.

(** The extras on ReplaceAll and %d *)

(** X: [strings.ReplaceAll] leaves a string in which [old] does not occur
    unchanged. *)
Theorem ReplaceAll_no_occurrence (s old new : string) :
  old <> EmptyString ->
  (forall a b, s <> (a ++ old ++ b)%string) ->
  ReplaceAll s old new = s.
Proof.
  intros Hold. rewrite ReplaceAll_go by done.
  induction s as [|c s IH]; intros Hno; [done|]. simpl.
  destruct (strip_prefix_s old (String c s)) as [rest|] eqn:E.
  - apply strip_prefix_s_spec in E. exfalso. apply (Hno EmptyString rest). exact E.
  - f_equal. apply IH. intros a b Hs. apply (Hno (String c a) b). simpl. by rewrite Hs.
Qed.

Lemma ReplaceAll_no_occurrence_witness :
  "${manifestFolder}" <> EmptyString /\
  (forall a b, "x.exe" <> (a ++ "${manifestFolder}" ++ b)%string) /\
  ReplaceAll "x.exe" "${manifestFolder}" "C:\menu" = "x.exe".
Proof.
  assert (H1 : "${manifestFolder}" <> EmptyString) by discriminate.
  assert (H2 : forall a b, "x.exe" <> (a ++ "${manifestFolder}" ++ b)%string).
  { intros a b Hs. apply (f_equal String.length) in Hs. rewrite !slen_app in Hs.
    simpl in Hs. lia. }
  split; [exact H1|]. split; [exact H2|].
  exact (ReplaceAll_no_occurrence "x.exe" "${manifestFolder}" "C:\menu" H1 H2).
Defined.

(** X: an occurrence of [old] at the start of the string is replaced by
    [new] and the scan resumes after it: the inserted text is never
    scanned again. *)
Theorem ReplaceAll_prefix (old new t : string) :
  old <> EmptyString ->
  ReplaceAll (old ++ t) old new = (new ++ ReplaceAll t old new)%string.
Proof.
  intros Hold. rewrite !ReplaceAll_go by done.
  destruct old as [|c o]; [done|].
  change ((String c o ++ t)%string) with (String c (o ++ t)).
  change (String.length (String c (o ++ t))) with (S (String.length (o ++ t))).
  cbn [replace_go].
  assert (E : strip_prefix_s (String c o) (String c (o ++ t)) = Some t)
    by (apply strip_prefix_s_spec; reflexivity).
  rewrite E. f_equal. apply replace_go_fuel; [done| |lia].
  rewrite slen_app. lia.
Qed.

Lemma ReplaceAll_prefix_witness :
  "${manifestFolder}" <> EmptyString /\
  ReplaceAll ("${manifestFolder}" ++ "\run.bat") "${manifestFolder}" "C:\${manifestFolder}"
  = ("C:\${manifestFolder}" ++ ReplaceAll "\run.bat" "${manifestFolder}" "C:\${manifestFolder}")%string.
Proof.
  assert (H1 : "${manifestFolder}" <> EmptyString) by discriminate.
  split; [exact H1|].
  exact (ReplaceAll_prefix "${manifestFolder}" "C:\${manifestFolder}" "\run.bat" H1).
Defined.

(** X: [fmt.Sprintf("%d")] prints a number so that it reads back as the
    same number: an optional minus sign followed by decimal digits. *)
Theorem fmt_d_decimal_value (z : Z) : decimal_value (fmt_d z) = Some z.
Proof.
  unfold fmt_d.
  set (D := digits_go _ (Z.to_N (Z.abs z)) EmptyString).
  assert (HD : dec_from 0 D = Some (Z.to_N (Z.abs z))).
  { destruct (digits_go_value _ (Z.to_N (Z.abs z)) EmptyString 0 (fmt_d_fuel z)) as [k Hk].
    unfold D. rewrite Hk.
    replace (0 * 10 ^ k + Z.to_N (Z.abs z))%N with (Z.to_N (Z.abs z)) by lia. reflexivity. }
  assert (Hh : exists c t, D = String c t /\ digit_value c <> None).
  { unfold D. cbn [digits_go].
    destruct (Z.to_N (Z.abs z) <? 10)%N.
    - eexists _, _. split; [reflexivity|]. rewrite digit_value_digit; [done|apply N.mod_lt; lia].
    - apply digits_go_head. rewrite digit_value_digit; [done|apply N.mod_lt; lia]. }
  destruct Hh as (c & t & Ec & Hc).
  destruct (z <? 0)%Z eqn:Ez.
  - apply Z.ltb_lt in Ez. cbn [decimal_value]. rewrite Ascii.eqb_refl.
    rewrite Ec. rewrite <- Ec, HD. simpl. f_equal. rewrite Z2N.id by lia. lia.
  - apply Z.ltb_ge in Ez. rewrite Ec. cbn [decimal_value].
    destruct (Ascii.eqb_spec c "-") as [->|_]; [by vm_compute in Hc|].
    rewrite <- Ec, HD. simpl. f_equal. rewrite Z2N.id by lia. lia.
Qed.

(** ** findNircmd *)





(** ** findManifest *)

Lemma Join_cons (x : string) (rest : list string) (sep : string) :
  rest <> [] -> Join (x :: rest) sep = (x ++ sep ++ Join rest sep)%string.
Proof. by destruct rest. Qed.

Lemma Join_split_path (s : string) : Join (split_path s) "\" = s.
Proof.
  induction s as [|ch s IH]; [done|]. cbn [split_path].
  destruct (Ascii.eqb_spec ch bs) as [->|Hne].
  - rewrite Join_cons by apply split_path_nonempty. rewrite IH. reflexivity.
  - destruct (split_path s) as [|h t] eqn:E; [by apply split_path_nonempty in E|].
    destruct t; simpl in *; by rewrite IH.
Qed.

Lemma path_dir_join (d f : string) : seg_ok f -> path_dir (path_join d f) = d.
Proof.
  intros Hf. unfold path_dir, path_join.
  change ((d ++ "\" ++ f)%string) with ((d ++ String bs f)%string).
  rewrite split_path_app, (split_path_seg f Hf), rev_app_distr. simpl.
  destruct (rev (split_path d)) as [|x [|y u]] eqn:E.
  - apply (f_equal (@rev string)) in E. rewrite rev_involutive in E. by apply split_path_nonempty in E.
  - simpl. apply (f_equal (@rev string)) in E. rewrite rev_involutive in E. simpl in E.
    rewrite <- (Join_split_path d), E. reflexivity.
  - rewrite <- E, rev_involutive. apply Join_split_path.
Qed.

Lemma seg_ok_manifestFilename : seg_ok manifestFilename.
Proof. unfold seg_ok, manifestFilename. simpl. repeat constructor; discriminate. Qed.

(** X: [findManifest] returns the first of its candidates (manifest.json
    in the working directory, then in the executable's directory) that is
    an existing file, and fails with [manifest.json not found] wrapping
    [os.ErrNotExist] when there is none. It changes no state. *)
Theorem findManifest_first_candidate (env : Env) (st : St) :
  findManifest env st =
  (match List.filter (is_file env) (manifest_candidates env) with
   | p :: _ => Ok p
   | [] => Err (Errorf "manifest.json not found: %w" [] ErrNotExist)
   end, st).
Proof.
  unfold findManifest, manifest_candidates.
  destruct (executable env) as [fe|];
    [destruct (is_file env (path_join (path_dir fe) manifestFilename)) eqn:E1|];
    destruct (getwd env) as [fw|];
    try destruct (is_file env (path_join fw manifestFilename)) eqn:E2;
    simpl; rewrite ?E1, ?E2; reflexivity.
Qed.

(** X: the directory [run] takes as [manifestDir], [filepath.Dir] of the
    path [findManifest] returns, is the directory that path was built
    from: the working directory or the executable's directory. *)
Theorem findManifest_dir (env : Env) (st : St) (p : string) :
  fst (findManifest env st) = Ok p ->
  is_file env p = true /\
  ((exists wd, getwd env = Some wd /\ p = path_join wd manifestFilename /\ path_dir p = wd) \/
   (exists fp, executable env = Some fp /\
               p = path_join (path_dir fp) manifestFilename /\ path_dir p = path_dir fp)).
Proof.
  unfold findManifest.
  destruct (getwd env) as [fw|] eqn:Ew.
  - destruct (is_file env (path_join fw manifestFilename)) eqn:E2.
    + simpl. intros [= <-]. split; [done|]. left. exists fw.
      split; [done|]. split; [done|]. apply path_dir_join, seg_ok_manifestFilename.
    + destruct (executable env) as [fe|] eqn:Ee; [|discriminate].
      destruct (is_file env (path_join (path_dir fe) manifestFilename)) eqn:E1; [|discriminate].
      simpl. intros [= <-]. split; [done|]. right. exists fe.
      split; [done|]. split; [done|]. apply path_dir_join, seg_ok_manifestFilename.
  - destruct (executable env) as [fe|] eqn:Ee; [|discriminate].
    destruct (is_file env (path_join (path_dir fe) manifestFilename)) eqn:E1; [|discriminate].
    simpl. intros [= <-]. split; [done|]. right. exists fe.
    split; [done|]. split; [done|]. apply path_dir_join, seg_ok_manifestFilename.
Qed.

Lemma findManifest_dir_witness :
  fst (findManifest env_menu_manifest st_empty) = Ok "C:\menu\manifest.json" /\
  (is_file env_menu_manifest "C:\menu\manifest.json" = true /\
   ((exists wd, getwd env_menu_manifest = Some wd /\
                "C:\menu\manifest.json" = path_join wd manifestFilename /\
                path_dir "C:\menu\manifest.json" = wd) \/
    (exists fp, executable env_menu_manifest = Some fp /\
                "C:\menu\manifest.json" = path_join (path_dir fp) manifestFilename /\
                path_dir "C:\menu\manifest.json" = path_dir fp))).
Proof.
  assert (H : fst (findManifest env_menu_manifest st_empty) = Ok "C:\menu\manifest.json")
    by reflexivity.
  split; [exact H|]. exact (findManifest_dir env_menu_manifest st_empty _ H).
Defined.

(** ** run and main *)

(** X: until the manifest has been found, read and parsed, [main] makes no
    registry call and changes no state; a failure at any of these steps
    ends the process ([log.Fatal]) with the error, wrapped with
    [failed to read manifest.json] or [failed to parse manifest.json]
    for the last two. *)
Theorem main_manifest_errors (fs : Files) (env : Env) (st : St) :
  (forall e, fst (findManifest env st) = Err e -> main fs env st = (Exit e, st)) /\
  (forall p e, fst (findManifest env st) = Ok p -> ReadFile fs p = inl e ->
     main fs env st = (Exit (Errorf "failed to read manifest.json: %w" [] e), st)) /\
  (forall p data e, fst (findManifest env st) = Ok p -> ReadFile fs p = inr data ->
     Unmarshal fs data = inl e ->
     main fs env st = (Exit (Errorf "failed to parse manifest.json: %w" [] e), st)).
Proof.
  rewrite findManifest_first_candidate. simpl.
  unfold main, run_main, bind, with_context, of_result.
  rewrite findManifest_first_candidate.
  destruct (List.filter (is_file env) (manifest_candidates env)) as [|p0 ps].
  - split; [by intros e [= <-]|]. split; [by intros p e [=]|]. by intros p data e [=].
  - split; [by intros e [=]|]. split.
    + intros p e [= <-] Hr. by rewrite Hr.
    + intros p data e [= <-] Hr Hu. by rewrite Hr, Hu.
Qed.

(** X: when manifest.json exists in the working directory [wd] and reads
    and parses to [items], [main] installs [items] with [wd] as
    [manifestDir]; an error of that installation ends the process. *)
Theorem main_installs (fs : Files) (env : Env) (st : St) (wd data : string)
    (items : list (string * ContextMenu)) :
  getwd env = Some wd ->
  is_file env (path_join wd manifestFilename) = true ->
  ReadFile fs (path_join wd manifestFilename) = inr data ->
  Unmarshal fs data = inr items ->
  main fs env st =
  match run items wd env st with
  | (Err e, st') => (Exit e, st')
  | res => res
  end.
Proof.
  intros Hw Hf Hr Hu.
  unfold main, run_main, bind, with_context, of_result, findManifest.
  rewrite Hw, Hf, Hr, Hu.
  rewrite (path_dir_join wd manifestFilename seg_ok_manifestFilename). reflexivity.
Qed.

Lemma main_installs_witness :
  getwd env_menu_manifest = Some "C:\menu" /\
  is_file env_menu_manifest (path_join "C:\menu" manifestFilename) = true /\
  ReadFile files_menu (path_join "C:\menu" manifestFilename) = inr "{}" /\
  Unmarshal files_menu "{}" = inr [("a", item_x)] /\
  main files_menu env_menu_manifest st_empty =
  match run [("a", item_x)] "C:\menu" env_menu_manifest st_empty with
  | (Err e, st') => (Exit e, st')
  | res => res
  end.
Proof.
  assert (H1 : getwd env_menu_manifest = Some "C:\menu") by reflexivity.
  assert (H2 : is_file env_menu_manifest (path_join "C:\menu" manifestFilename) = true)
    by reflexivity.
  assert (H3 : ReadFile files_menu (path_join "C:\menu" manifestFilename) = inr "{}")
    by reflexivity.
  assert (H4 : Unmarshal files_menu "{}" = inr [("a", item_x)]) by reflexivity.
  split; [exact H1|]. split; [exact H2|]. split; [exact H3|]. split; [exact H4|].
  exact (main_installs files_menu env_menu_manifest st_empty "C:\menu" "{}" _ H1 H2 H3 H4).
Defined.

(** ** The key of a node *)

Lemma runs_bind_cont {A B} (env : Env) (F0 F1 : Eff) (m : M A) (k : A -> M B) (c c1 : string)
    (a : A) (r0 : Reg) (Q : Outcome B * St -> Prop) :
  runs_from env F0 m c (Ok a) c1 F1 ->
  (forall st1, wf_reg (reg st1) -> nircmd_cache st1 = c1 ->
     (forall q, reg st1 !! q = F1 q (r0 !! q)) -> Q (k a env st1)) ->
  forall st, wf_reg (reg st) -> nircmd_cache st = c ->
    (forall q, reg st !! q = F0 q (r0 !! q)) -> Q (bind m k env st).
Proof.
  intros H1 H2 st Hwf Hc Hr. destruct (H1 r0 st Hwf Hc Hr) as (Ho & Hc1 & Hwf1 & Hr1).
  unfold bind. destruct (m env st) as [o1 st1]. simpl in *. subst o1. by apply H2.
Qed.

Lemma eff_set_at (h : list string) (name : string) (v : RegValue) (F : Eff) (x : Slot) :
  eff_set h name v F h x = option_map (insert name v) (F h x).
Proof. unfold eff_set. by rewrite decide_True. Qed.

Lemma eff_create_on (h q : list string) (F : Eff) (x : Slot) :
  on_path q h -> eff_create h F q x = ens (F q x).
Proof. intros H. unfold eff_create. by rewrite decide_True. Qed.

Lemma on_path_app (P t : list string) : P <> [] -> on_path P (P ++ t).
Proof. intros H. split; [done|apply under_app]. Qed.

Lemma foot_keep (P q : list string) (r r' : Reg) :
  foot P r r' -> ~ under P q -> (is_Some (r !! q) \/ ~ under q P) -> r' !! q = r !! q.
Proof.
  intros H Hn Hq. destruct (H q) as [E|[U|(U & N & _)]]; [done|contradiction|].
  destruct Hq as [[v Hv]|Hq]; [congruence|contradiction].
Qed.

Lemma for_each_inv {X} (I : St -> Prop) (l : list X) (f : X -> M unit) :
  (forall x, x ∈ l -> forall env st, I st -> I (snd (f x env st))) ->
  forall env st, I st -> I (snd (for_each l f env st)).
Proof.
  induction l as [|x l IH]; intros Hf env st HI; simpl; [done|].
  unfold bind. pose proof (Hf x ltac:(set_solver) env st HI) as H1.
  destruct (f x env st) as [[[]|e|e] st1]; simpl in *; [|done|done].
  apply IH; [|done]. intros y Hy. apply Hf. set_solver.
Qed.

Lemma not_under_longer (p q : list string) : length q < length p -> ~ under p q.
Proof. intros Hl Hu. apply under_length in Hu. lia. Qed.

Lemma shell_command_incomparable (P t : list string) :
  ~ under (P ++ "shell" :: t) (P ++ ["command"]) /\ ~ under (P ++ ["command"]) (P ++ "shell" :: t).
Proof.
  split; intros [u Hu]; rewrite <- app_assoc in Hu; apply app_inv_head in Hu; discriminate Hu.
Qed.

Lemma not_on_path_command (P : list string) :
  ~ on_path (P ++ ["command"]) P /\ ~ on_path (P ++ ["command"]) (P ++ ["shell"]).
Proof.
  split; intros [_ [u Hu]].
  - apply (f_equal length) in Hu. rewrite !length_app in Hu. simpl in Hu. lia.
  - rewrite <- app_assoc in Hu. apply app_inv_head in Hu. discriminate Hu.
Qed.

Lemma command_not_self (P : list string) : P ++ ["command"] <> P.
Proof. intros H. apply (f_equal length) in H. rewrite length_app in H. simpl in H. lia. Qed.

Ltac node_step Hnf :=
  first
    [ eapply runs_bind_cont; [apply runs_with_context_ok, runs_erase; done|]; cbv beta
    | eapply runs_bind_cont; [apply runs_with_context_ok, runs_create; done|]; cbv beta
    | eapply runs_bind_cont; [apply runs_with_context_ok; unfold SetStringValue;
                              eapply (runs_set _ Hnf); const_tac|]; cbv beta
    | eapply runs_bind_cont; [apply runs_ret|]; cbv beta ].

Lemma ens_is_Some (x : Slot) : is_Some (ens x).
Proof. destruct x; by eexists. Qed.

Lemma folder_loop_keeps (parent id dir : string) (items : list (string * ContextMenu))
    (V : gmap string RegValue) (env : Env) (st : St) :
  wf_reg (reg st) ->
  reg st !! split_path (key_path parent id) = Some V ->
  reg st !! (split_path (key_path parent id) ++ ["command"]) = None ->
  is_Some (reg st !! (split_path (key_path parent id) ++ ["shell"])) ->
  reg (snd (for_each items (fun '(subID, subItem) =>
              with_context (Errorf "failed to create context menu ID %q: %w" [subID])
                (createContextMenu (parent ++ "\" ++ id ++ "\shell") subID subItem dir)) env st))
    !! split_path (key_path parent id) = Some V /\
  reg (snd (for_each items (fun '(subID, subItem) =>
              with_context (Errorf "failed to create context menu ID %q: %w" [subID])
                (createContextMenu (parent ++ "\" ++ id ++ "\shell") subID subItem dir)) env st))
    !! (split_path (key_path parent id) ++ ["command"]) = None /\
  is_Some (reg (snd (for_each items (fun '(subID, subItem) =>
              with_context (Errorf "failed to create context menu ID %q: %w" [subID])
                (createContextMenu (parent ++ "\" ++ id ++ "\shell") subID subItem dir)) env st))
    !! (split_path (key_path parent id) ++ ["shell"])).
Proof.
  intros Hwf H1 H2 H3.
  set (P := split_path (key_path parent id)).
  refine (proj2 (for_each_inv (fun s => wf_reg (reg s) /\ reg s !! P = Some V /\
                   reg s !! (P ++ ["command"]) = None /\ is_Some (reg s !! (P ++ ["shell"])))
                 items _ _ env st (conj Hwf (conj H1 (conj H2 H3))))).
  intros [subID subItem] _ env' s (Hw & G1 & G2 & G3).
  pose proof (createContextMenu_stays dir subItem (parent ++ "\" ++ id ++ "\shell")%string subID)
    as Hs.
  rewrite key_path_child in Hs. fold P in Hs.
  apply (stays_with_context _ (Errorf "failed to create context menu ID %q: %w" [subID])) in Hs.
  destruct (Hs env' s Hw) as [Hw' Hf]. cbv beta iota.
  assert (Ht : length (P ++ ["shell"]) < length (P ++ "shell" :: split_path subID)).
  { destruct (split_path subID) eqn:E; [by apply split_path_nonempty in E|].
    rewrite !length_app. simpl. lia. }
  split; [done|]. split; [|split].
  - rewrite (foot_keep _ _ _ _ Hf); [done| |by left].
    apply not_under_longer. rewrite length_app. simpl. lia.
  - rewrite (foot_keep _ _ _ _ Hf); [done|apply shell_command_incomparable|].
    right. apply shell_command_incomparable.
  - rewrite (foot_keep _ _ _ _ Hf); [done| |by left].
    apply not_under_longer. exact Ht.
Qed.

Lemma createContextMenu_node_state (env : Env) (Hnf : forall o q, fault env o q = None)
    (parent id : string) (c : ContextMenu) (dir : string) (st : St) :
  wf_reg (reg st) ->
  reg (snd (createContextMenu parent id c dir env st)) !! split_path (key_path parent id)
    = Some (node_values c dir) /\
  (Type_ c = ContextMenuType_Folder ->
   reg (snd (createContextMenu parent id c dir env st))
     !! (split_path (key_path parent id) ++ ["command"]) = None /\
   is_Some (reg (snd (createContextMenu parent id c dir env st))
              !! (split_path (key_path parent id) ++ ["shell"]))).
Proof.
  intros Hwf.
  destruct c as [typ title iconPath iconIndex extended admin command items].
  pose (Q := fun res : Outcome unit * St =>
    reg (snd res) !! split_path (key_path parent id)
      = Some (node_values (mkContextMenu typ title iconPath iconIndex extended admin command items) dir) /\
    (typ = ContextMenuType_Folder ->
     reg (snd res) !! (split_path (key_path parent id) ++ ["command"]) = None /\
     is_Some (reg (snd res) !! (split_path (key_path parent id) ++ ["shell"])))).
  enough (H : forall st1, wf_reg (reg st1) -> nircmd_cache st1 = nircmd_cache st ->
            (forall q, reg st1 !! q = (fun (_ : list string) (x : Slot) => x) q (reg st !! q)) ->
            Q (createContextMenu parent id
                 (mkContextMenu typ title iconPath iconIndex extended admin command items) dir env st1)).
  { exact (H st Hwf eq_refl (fun q => eq_refl)). }
  destruct (String.eqb (Icon (mkContextMenu typ title iconPath iconIndex extended admin command items)
                   dir) EmptyString) eqn:Hi;
    destruct extended; destruct admin;
    destruct (String.eqb typ ContextMenuType_Folder) eqn:Ht.
  all: cbn [createContextMenu]; rewrite Hi, Ht.
  all: eapply (runs_bind_cont env (fun _ x => x)) with (r0 := reg st);
         [apply runs_with_context_ok, runs_erase; done|]; cbv beta.
  all: do 5 node_step Hnf.
  all: try (match type of Ht with _ = true => do 2 node_step Hnf end).
  all: intros st1 Hwf1 _ Hr1.
  all: unfold CURRENT_USER in Hr1; rewrite ?app_nil_l in Hr1.
  all: rewrite ?key_path_shell in Hr1.
  all: unfold Q.
  all: match goal with
       | |- context [node_values ?c0 ?d0] =>
           assert (E1 : reg st1 !! split_path (key_path parent id) = Some (node_values c0 d0))
       end.
  all: try (rewrite Hr1; rewrite ?eff_create_on by (apply on_path_app; apply split_path_nonempty);
            rewrite !eff_set_at; rewrite const_after_create by apply split_path_nonempty;
            unfold node_values; cbn [Title Type_ Extended Admin option_map ens];
            rewrite Hi, Ht; reflexivity).
  (* the folder branch *)
  all: try (rewrite createContextMenu_folder_loop;
    assert (E2 : reg st1 !! (split_path (key_path parent id) ++ ["command"]) = None)
      by (rewrite Hr1;
          apply none_create; [apply not_on_path_command|];
          repeat (apply none_set; [apply command_not_self|]);
          apply none_create; [apply not_on_path_command|];
          apply none_erase_at, under_app);
    assert (E3 : is_Some (reg st1 !! (split_path (key_path parent id) ++ ["shell"])))
      by (rewrite Hr1, eff_create_on; [apply ens_is_Some|];
          split; [intros Hn; by destruct (app_eq_nil _ _ Hn)|apply under_refl]);
    destruct (folder_loop_keeps parent id dir items _ env st1 Hwf1 E1 E2 E3) as (G1 & G2 & G3);
    split; [exact G1|]; intros _; split; [exact G2|exact G3]).
  (* the command branch *)
  all: match goal with
       | |- context [bind ?m ?k ?e0 ?s0] =>
           assert (Hs : stays (split_path (key_path parent id) ++ ["command"]) (bind m k))
       end.
  all: try (apply stays_bind; [apply stays_with_context, stays_erase;
                               rewrite key_path_command; apply under_refl|intros _];
            apply stays_bind_create; [rewrite key_path_command; apply under_refl|];
            apply stays_bind; [apply stays_CommandString|intros cmd];
            apply stays_with_context, stays_set; rewrite key_path_command; apply under_refl).
  all: destruct (Hs env st1 Hwf1) as [_ Hf].
  all: split; [|intros Htyp; rewrite Htyp in Ht; discriminate Ht].
  all: refine (eq_trans (foot_keep _ (split_path (key_path parent id)) _ _ Hf _ _) E1);
         [|left; rewrite E1; by eexists].
  all: apply not_under_longer; rewrite length_app; cbn [length]; rewrite Nat.add_1_r; apply Nat.lt_succ_diag_r.
Qed.

(** X: with no registry call failing, [createContextMenu] leaves the
    node's key holding exactly the values it sets: [MUIVerb] (the title),
    [Icon] when the icon string is not empty, [Extended] and
    [HasLUAShield] (empty strings) when those flags are set, and
    [SubCommands] (an empty string) for a folder. Values the key held
    before are gone, and the sub-items and the command line, whatever
    their outcome, do not change them. *)
Theorem createContextMenu_node_values (env : Env) (Hnf : forall o q, fault env o q = None)
    (parent id : string) (c : ContextMenu) (dir : string) (st : St) :
  wf_reg (reg st) ->
  reg (snd (createContextMenu parent id c dir env st)) !! split_path (key_path parent id)
    = Some (node_values c dir).
Proof. intros Hwf. exact (proj1 (createContextMenu_node_state env Hnf parent id c dir st Hwf)). Qed.

Lemma createContextMenu_node_values_witness :
  (forall o q, fault env_menu o q = None) /\ wf_reg (reg st_empty) /\
  reg (snd (createContextMenu "" "tools" folder_sample "C:\menu" env_menu st_empty))
    !! split_path (key_path "" "tools") = Some (node_values folder_sample "C:\menu").
Proof.
  assert (Hnf : forall o q, fault env_menu o q = None) by reflexivity.
  assert (Hwf : wf_reg (reg st_empty)) by apply wf_reg_empty.
  split; [exact Hnf|]. split; [exact Hwf|].
  exact (createContextMenu_node_values env_menu Hnf "" "tools" folder_sample "C:\menu" st_empty Hwf).
Defined.

(** X: with no registry call failing, a folder node ends with a [shell]
    subkey and without a [command] subkey, whatever its sub-items do. *)
Theorem createContextMenu_folder_keys (env : Env) (Hnf : forall o q, fault env o q = None)
    (parent id : string) (c : ContextMenu) (dir : string) (st : St) :
  wf_reg (reg st) ->
  Type_ c = ContextMenuType_Folder ->
  reg (snd (createContextMenu parent id c dir env st))
    !! (split_path (key_path parent id) ++ ["command"]) = None /\
  is_Some (reg (snd (createContextMenu parent id c dir env st))
             !! (split_path (key_path parent id) ++ ["shell"])).
Proof.
  intros Hwf Ht. exact (proj2 (createContextMenu_node_state env Hnf parent id c dir st Hwf) Ht).
Qed.

Lemma createContextMenu_folder_keys_witness :
  (forall o q, fault env_menu o q = None) /\ wf_reg (reg st_empty) /\
  Type_ folder_sample = ContextMenuType_Folder /\
  (reg (snd (createContextMenu "" "tools" folder_sample "C:\menu" env_menu st_empty))
     !! (split_path (key_path "" "tools") ++ ["command"]) = None /\
   is_Some (reg (snd (createContextMenu "" "tools" folder_sample "C:\menu" env_menu st_empty))
              !! (split_path (key_path "" "tools") ++ ["shell"]))).
Proof.
  assert (Hnf : forall o q, fault env_menu o q = None) by reflexivity.
  assert (Hwf : wf_reg (reg st_empty)) by apply wf_reg_empty.
  assert (Ht : Type_ folder_sample = ContextMenuType_Folder) by reflexivity.
  split; [exact Hnf|]. split; [exact Hwf|]. split; [exact Ht|].
  exact (createContextMenu_folder_keys env_menu Hnf "" "tools" folder_sample "C:\menu" st_empty
           Hwf Ht).
Defined.

(** X: whatever the registry rejects and however it ends,
    [createContextMenu] keeps the registry well formed and changes it only
    at or below the node's key, apart from creating missing (empty) keys
    on the path to that key. *)
Theorem createContextMenu_footprint (parent id : string) (c : ContextMenu) (dir : string)
    (env : Env) (st : St) :
  wf_reg (reg st) ->
  wf_reg (reg (snd (createContextMenu parent id c dir env st))) /\
  foot (split_path (key_path parent id)) (reg st)
       (reg (snd (createContextMenu parent id c dir env st))).
Proof. intros Hwf. exact (createContextMenu_stays dir c parent id env st Hwf). Qed.

Lemma createContextMenu_footprint_witness :
  wf_reg (reg st_sample) /\
  wf_reg (reg (snd (createContextMenu "" "a" item_x "C:\menu" env_fail_a_command st_sample))) /\
  foot (split_path (key_path "" "a")) (reg st_sample)
       (reg (snd (createContextMenu "" "a" item_x "C:\menu" env_fail_a_command st_sample))).
Proof.
  assert (Hwf : wf_reg (reg st_sample)) by (apply wf_reg_check_sound; vm_compute; reflexivity).
  split; [exact Hwf|].
  exact (createContextMenu_footprint "" "a" item_x "C:\menu" env_fail_a_command st_sample Hwf).
Defined.

(** X: whatever the registry rejects and however it ends, an install
    keeps the registry well formed and changes it only at or below
    [HKCU\Software\Classes\Directory\Background\shell], apart from
    creating missing (empty) keys on the path to it. *)
Theorem install_footprint (items : list (string * ContextMenu)) (dir : string) (env : Env)
    (r : Reg) :
  wf_reg r ->
  wf_reg (reg (snd (install items dir env r))) /\
  foot (split_path shell_root) r (reg (snd (install items dir env r))).
Proof.
  intros Hwf. unfold install.
  assert (Hs : stays (split_path shell_root) (run items dir)).
  { unfold run. apply stays_for_each. intros [id item] _. apply stays_with_context.
  eapply stays_mono; [|apply createContextMenu_stays].
  change (key_path "" id) with ((shell_root ++ String bs id)%string).
    rewrite split_path_app. apply under_app. }
  exact (Hs env (mkSt r [] EmptyString) Hwf).
Qed.

Lemma install_footprint_witness :
  wf_reg reg_sample /\
  wf_reg (reg (snd (install items_five "C:\menu" env_fail_a_command reg_sample))) /\
  foot (split_path shell_root) reg_sample
       (reg (snd (install items_five "C:\menu" env_fail_a_command reg_sample))).
Proof.
  assert (Hwf : wf_reg reg_sample) by (apply wf_reg_check_sound; vm_compute; reflexivity).
  split; [exact Hwf|].
  exact (install_footprint items_five "C:\menu" env_fail_a_command reg_sample Hwf).
Defined.
